(** * A persistent key-value store: memtable, write-ahead log, sorted tables

    Shallow embedding of [main.go]: the [KeyValueStore] struct with its two
    maps, the write-ahead log [wal.log], the [sstable_*.sst] files and the
    operations [Get], [Set], [Delete], [WriteSSTable], [ClearWAL],
    [RecoverFromWAL], [SearchSSTFiles], [SearchSSTFile] and [CloseWAL], and
    the three HTTP handlers.

    Conventions of the embedding.
    - A Go [string] and a Go [[]byte] are both sequences of bytes and the
      conversions between them copy the bytes; both are modelled by [string].
      The nil slice has length 0 and is modelled by the empty string.
    - A Go map is a [gmap]; reading an absent key of [map[string]bool] gives
      [false] and of [map[string][]byte] gives the nil slice.
    - The files are part of the state ([World]); every call that can fail in
      the source takes its outcome from an [env] value supplied with the
      operation, so that the error branches of the source are modelled.
    - Every assignment to the two maps and every write to the log is
      recorded, in program order, in the [trace] of the world
      ([serve_explained] shows that the maps and the log change in no other
      way).

    What is left out.
    - The text of the log: [wal_log] is the list of values a
      [json.Decoder] reads from [wal.log], not the text itself ([json_entry]
      is the value it reads from a line that [writeToWAL] wrote), and an
      object whose fields are not strings, on which [RecoverFromWAL] would
      panic, is not an entry.
    - Errors of [filepath.Glob], [os.Stat] and [os.Open] on a table and of
      reads inside a table: a table that is listed can be read to its end.
    - The cap on a single [File.Read]: a read fills its buffer whenever the
      bytes are there, as it does for keys and values below 1 GiB.
    - Partial effects of a failing write to the log: a [WriteString] that
      fails adds nothing to [wal.log].
    - The output of [log.Printf] and [fmt.Printf].
    - Concurrency: the requests are served one after the other, while the
      handlers of [net/http] run in goroutines of their own and the store
      has no lock. *)

From stdpp Require Import gmap strings list sorting pretty.
From Stdlib Require Import ZArith Ascii.

Open Scope Z_scope.

(* ===================================================================== *)
(** * Bytes and fixed-width little-endian integers *)
(* ===================================================================== *)

Definition byte_of_Z (z : Z) : ascii := ascii_of_N (Z.to_N (z mod 256)).
Definition Z_of_byte (c : ascii) : Z := Z.of_N (N_of_ascii c).

(** Conversions [uint16(x)] and [uint32(x)] of a Go [int]. *)
Definition uint16 (z : Z) : Z := z mod 2 ^ 16.
Definition uint32 (z : Z) : Z := z mod 2 ^ 32.

(** [len(s)] as a Go [int]. *)
Definition len (s : string) : Z := Z.of_nat (String.length s).

(** [binary.Write(f, binary.LittleEndian, x)] for an unsigned [x] of [width]
    bytes: least significant byte first. *)
Fixpoint le_bytes (width : nat) (z : Z) : string :=
  match width with
  | O => ""
  | S w => String (byte_of_Z z) (le_bytes w (z / 256))
  end.

(** Value of a little-endian byte string, as [binary.Read] decodes it. *)
Fixpoint le_value (s : string) : Z :=
  match s with
  | "" => 0
  | String c s' => Z_of_byte c + 256 * le_value s'
  end.

Fixpoint str_take (n : nat) (s : string) : string :=
  match n, s with
  | S n', String c s' => String c (str_take n' s')
  | _, _ => ""
  end.

Fixpoint str_drop (n : nat) (s : string) : string :=
  match n, s with
  | S n', String _ s' => str_drop n' s'
  | _, _ => s
  end.

(** [make([]byte, n)]: [n] zero bytes. *)
Fixpoint zeros (n : nat) : string :=
  match n with
  | O => ""
  | S n' => String zero (zeros n')
  end.

(** Concatenation of the chunks handed to successive [Write] calls. *)
Fixpoint str_concat (l : list string) : string :=
  match l with
  | [] => ""
  | s :: l' => s +:+ str_concat l'
  end.

(* ===================================================================== *)
(** * Reading a table file *)
(* ===================================================================== *)

(** A reader is the not yet consumed rest of the file.  [io.ReadFull], which
    [binary.Read] uses, fails unless all [n] bytes are there. *)
Definition read_full (n : nat) (rest : string) : option (string * string) :=
  if (n <=? String.length rest)%nat
  then Some (str_take n rest, str_drop n rest)
  else None.

(** [buf := make([]byte, n); file.Read(buf)]: an empty buffer reads nothing
    and succeeds; at end of file the call fails with [io.EOF]; otherwise the
    bytes that are there are copied and the tail of the buffer stays zero. *)
Definition file_read (n : nat) (rest : string) : option (string * string) :=
  match n, rest with
  | O, _ => Some ("", rest)
  | _, "" => None
  | _, _ =>
      let got := str_take n rest in
      Some (got +:+ zeros (n - String.length got), str_drop n rest)
  end.

Definition read_uint (width : nat) (rest : string) : option (Z * string) :=
  match read_full width rest with
  | Some (b, rest') => Some (le_value b, rest')
  | None => None
  end.

(** The result [(nil, false)] of every failing or unsuccessful path. *)
Definition not_found : string * bool := ("", false).

(** The loop [for i := uint32(0); i < entryCount; i++] of [SearchSSTFile];
    [count] is the number of iterations left. *)
Fixpoint scan_entries (count : nat) (key : string) (rest : string)
  : string * bool :=
  match count with
  | O => not_found
  | S count' =>
      match read_uint 2 rest with
      | None => not_found
      | Some (operationMarker, rest) =>
      match read_uint 4 rest with
      | None => not_found
      | Some (keyLength, rest) =>
      match read_uint 4 rest with
      | None => not_found
      | Some (valueLength, rest) =>
      match file_read (Z.to_nat keyLength) rest with
      | None => not_found
      | Some (keyBytes, rest) =>
      match file_read (Z.to_nat valueLength) rest with
      | None => not_found
      | Some (valueBytes, rest) =>
          if bool_decide (keyBytes = key) then
            if operationMarker =? 1 then ("DELETED", true)
            else (valueBytes, true)
          else scan_entries count' key rest
      end end end end end
  end.

(** [SearchSSTFile(key, sstFile)] on the contents of the file. *)
Definition SearchSSTFile (key : string) (contents : string) : string * bool :=
  match file_read 4 contents with
  | None => not_found
  | Some (magicNumber, rest) =>
      if bool_decide (magicNumber = "SSTB") then
        match read_uint 4 rest with
        | None => not_found
        | Some (entryCount, rest) =>
        match read_uint 4 rest with
        | None => not_found
        | Some (smallestKeyLength, rest) =>
        match read_uint 4 rest with
        | None => not_found
        | Some (largestKeyLength, rest) =>
            scan_entries (Z.to_nat entryCount) key rest
        end end end
      else not_found
  end.

(* ===================================================================== *)
(** * The store, the files and the environment *)
(* ===================================================================== *)

(** State of the [*os.File] held in [kv.wal]. *)
Inductive handle := Open | Closed.

(** [type KeyValueStore struct]. *)
Record KeyValueStore := mkKeyValueStore {
  data : gmap string string;
  wal : handle;
  smallestKeyLength : Z;
  largestKeyLength : Z;
  DeletedKeys : gmap string bool
}.

#[global] Instance handle_eq_dec : EqDecision handle.
Proof. solve_decision. Defined.

(** One JSON value of [wal.log].  [WalRecord] is an object whose fields
    "operation", "key" and "value" are strings, which is what [writeToWAL]
    is given to write; [WalGarbage] is text that [json.Decoder] rejects. *)
Inductive wal_entry :=
| WalRecord (operation key value : string)
| WalGarbage.

#[global] Instance wal_entry_eq_dec : EqDecision wal_entry.
Proof. solve_decision. Defined.

(** A file matching [sstable_*.sst] in the working directory. *)
Record sst_file := mkSst {
  fname : string;
  modtime : Z;
  contents : string
}.

(** What the program does, in program order. *)
Inductive event :=
| EvWalWrite (entry : wal_entry) (ok : bool)   (* kv.wal.WriteString *)
| EvWalSync (ok : bool)                        (* kv.wal.Sync *)
| EvDataStore (key value : string)             (* kv.data[key] = value *)
| EvDataDelete (key : string)                  (* delete(kv.data, key) *)
| EvDeletedStore (key : string) (flag : bool)  (* kv.DeletedKeys[key] = flag *)
| EvWriteSSTable (filename : string) (ok : bool) (* kv.WriteSSTable(filename) *)
| EvDataReset                                  (* kv.data = make(...) *)
| EvDeletedReset                               (* kv.DeletedKeys = make(...) *)
| EvWalTruncate.                               (* os.Truncate("wal.log", 0) *)

#[global] Instance event_eq_dec : EqDecision event.
Proof. solve_decision. Defined.

(** The store together with the files it works on: [wal_log] is the list of
    JSON values in [wal.log], the path [main] opens the store on and the one
    [ClearWAL] truncates; [sstables] are the table files in directory order. *)
Record World := mkWorld {
  kv : KeyValueStore;
  wal_log : list wal_entry;
  sstables : list sst_file;
  trace : list event
}.

(** The step of [ClearWAL] that fails, if one does. *)
Inductive clear_step := CloseStep | TruncateStep | ReopenStep.

(** Outcomes of the system calls of one operation.
    - [now]: [time.Now().UnixNano()] of a flush; the table is named after
      it.
    - [mtime]: the modification time the file system leaves on the table a
      flush writes, which is what [os.Stat] reports when the tables are
      searched.  It is the kernel's time stamp, which need not be the clock
      reading [now].
    - [wal_write_ok], [wal_sync_ok]: whether [WriteString] and [Sync] succeed
      on an open log.
    - [sst_fault]: [Some 0] makes [os.Create] fail; [Some (S n)] lets [n]
      writes to the table succeed and the next one fail; [None] lets all of
      them succeed.
    - [sst_partial]: the number of bytes of its buffer that the failing
      write has added to the file before it fails.
    - [clear_fault]: the failing step of [ClearWAL]. *)
Record env := mkEnv {
  now : Z;
  mtime : Z;
  wal_write_ok : bool;
  wal_sync_ok : bool;
  sst_fault : option nat;
  sst_partial : nat;
  clear_fault : option clear_step
}.

(** ** Field updates *)

Definition set_data (d : gmap string string) (s : KeyValueStore) :=
  mkKeyValueStore d (wal s) (smallestKeyLength s) (largestKeyLength s)
    (DeletedKeys s).
Definition set_wal (h : handle) (s : KeyValueStore) :=
  mkKeyValueStore (data s) h (smallestKeyLength s) (largestKeyLength s)
    (DeletedKeys s).
Definition set_smallestKeyLength (n : Z) (s : KeyValueStore) :=
  mkKeyValueStore (data s) (wal s) n (largestKeyLength s) (DeletedKeys s).
Definition set_largestKeyLength (n : Z) (s : KeyValueStore) :=
  mkKeyValueStore (data s) (wal s) (smallestKeyLength s) n (DeletedKeys s).
Definition set_DeletedKeys (d : gmap string bool) (s : KeyValueStore) :=
  mkKeyValueStore (data s) (wal s) (smallestKeyLength s) (largestKeyLength s) d.

Definition with_kv (f : KeyValueStore → KeyValueStore) (w : World) : World :=
  mkWorld (f (kv w)) (wal_log w) (sstables w) (trace w).
Definition with_wal_log (f : list wal_entry → list wal_entry) (w : World) :=
  mkWorld (kv w) (f (wal_log w)) (sstables w) (trace w).
Definition with_sstables (f : list sst_file → list sst_file) (w : World) :=
  mkWorld (kv w) (wal_log w) (f (sstables w)) (trace w).
Definition emit (ev : event) (w : World) : World :=
  mkWorld (kv w) (wal_log w) (sstables w) (trace w ++ [ev]).

(** ** Reads of the two maps *)

(** [kv.DeletedKeys[key]]. *)
Definition deleted (s : KeyValueStore) (key : string) : bool :=
  default false (DeletedKeys s !! key).

(** [value := kv.data[key]]. *)
Definition value_of (s : KeyValueStore) (key : string) : string :=
  default "" (data s !! key).

(** ** The assignments of the source, each with its event *)

Definition store_data (key value : string) (w : World) : World :=
  emit (EvDataStore key value)
    (with_kv (λ s, set_data (<[key := value]> (data s)) s) w).

Definition delete_data (key : string) (w : World) : World :=
  emit (EvDataDelete key)
    (with_kv (λ s, set_data (delete key (data s)) s) w).

Definition store_deleted (key : string) (flag : bool) (w : World) : World :=
  emit (EvDeletedStore key flag)
    (with_kv (λ s, set_DeletedKeys (<[key := flag]> (DeletedKeys s)) s) w).

Definition reset_data (w : World) : World :=
  emit EvDataReset (with_kv (set_data ∅) w).

Definition reset_deleted (w : World) : World :=
  emit EvDeletedReset (with_kv (set_DeletedKeys ∅) w).

(* ===================================================================== *)
(** * The JSON text of a string *)
(* ===================================================================== *)

(** [writeToWAL] writes [json.Marshal] of its entry and [RecoverFromWAL]
    reads the file with a [json.Decoder].  The encoder walks a string with
    [utf8.DecodeRuneInString]; a byte that starts no valid UTF-8 encoding is
    written as [\ufffd], which the decoder reads as the three bytes of
    U+FFFD.  Every other escape of the encoder is undone by the decoder. *)

Definition in_range (lo hi : Z) (c : ascii) : bool :=
  (lo <=? Z_of_byte c) && (Z_of_byte c <=? hi).

(** [s] starts with [n] continuation bytes, the first of them in
    [lo .. hi] and the others in [0x80 .. 0xBF]. *)
Fixpoint continuation (lo hi : Z) (n : nat) (s : string) : bool :=
  match n, s with
  | O, _ => true
  | S n', String c s' => in_range lo hi c && continuation 128 191 n' s'
  | S _, "" => false
  end.

(** The number of bytes that follow [c] in the encoding that starts with
    [c], or [None] when no valid encoding starts there: the table [first]
    and the accept ranges of package [unicode/utf8]. *)
Definition utf8_tail (c : ascii) (rest : string) : option nat :=
  let accept lo hi n := if continuation lo hi n rest then Some n else None in
  if in_range 0 127 c then Some O
  else if in_range 194 223 c then accept 128 191 1%nat
  else if in_range 224 224 c then accept 160 191 2%nat
  else if in_range 225 236 c then accept 128 191 2%nat
  else if in_range 237 237 c then accept 128 159 2%nat
  else if in_range 238 239 c then accept 128 191 2%nat
  else if in_range 240 240 c then accept 144 191 3%nat
  else if in_range 241 243 c then accept 128 191 3%nat
  else if in_range 244 244 c then accept 128 143 3%nat
  else None.

(** The bytes of U+FFFD. *)
Definition replacement : string := String "239" (String "191" (String "189" "")).

(** What the decoder reads back from the text the encoder writes for [s];
    [pending] counts the bytes still to copy of an encoding that was
    accepted at its first byte. *)
Fixpoint json_bytes (pending : nat) (s : string) : string :=
  match s with
  | "" => ""
  | String c rest =>
      match pending with
      | S n => String c (json_bytes n rest)
      | O =>
          match utf8_tail c rest with
          | Some n => String c (json_bytes n rest)
          | None => replacement +:+ json_bytes O rest
          end
      end
  end.

Definition json_string (s : string) : string := json_bytes O s.

(** The entry a decoder reads from the line [writeToWAL] writes for
    [entry]. *)
Definition json_entry (entry : wal_entry) : wal_entry :=
  match entry with
  | WalRecord operation key value =>
      WalRecord (json_string operation) (json_string key) (json_string value)
  | WalGarbage => WalGarbage
  end.

(* ===================================================================== *)
(** * The write-ahead log *)
(* ===================================================================== *)

Definition is_open (h : handle) : bool :=
  match h with Open => true | Closed => false end.

(** [writeToWAL]: the JSON text of the entry is written and the file
    synced; a failure of either call is logged and otherwise ignored.
    Writing to or syncing a closed handle fails. *)
Definition writeToWAL (e : env) (entry : wal_entry) (w : World) : World :=
  let written := is_open (wal (kv w)) && wal_write_ok e in
  let synced := is_open (wal (kv w)) && wal_sync_ok e in
  let w :=
    if written then with_wal_log (λ l, l ++ [json_entry entry]) w else w in
  let w := emit (EvWalWrite entry written) w in
  emit (EvWalSync synced) w.

(** [ClearWAL]: close, truncate, reopen; the result is [true] on error. *)
Definition ClearWAL (e : env) (w : World) : bool * World :=
  match wal (kv w) with
  | Closed => (true, w)
  | Open =>
      let w := with_kv (set_wal Closed) w in
      match clear_fault e with
      | Some CloseStep => (true, w)
      | Some TruncateStep => (true, w)
      | fault =>
          let w := emit EvWalTruncate (with_wal_log (λ _, []) w) in
          match fault with
          | Some _ => (true, w)
          | None => (false, with_kv (set_wal Open) w)
          end
      end
  end.

(** The loop of [RecoverFromWAL] over the values the decoder yields: the end
    of the file ends the loop, a value that does not decode returns the
    error, a record is applied to [kv.data] according to its operation and
    any other operation is skipped. *)
Fixpoint replay (entries : list wal_entry) (w : World) : bool * World :=
  match entries with
  | [] => (false, w)
  | WalGarbage :: _ => (true, w)
  | WalRecord operation key value :: rest =>
      if bool_decide (operation = "set") then
        replay rest (store_data key value w)
      else if bool_decide (operation = "delete") then
        replay rest (delete_data key w)
      else replay rest w
  end.

(** [RecoverFromWAL]; [open_ok] is the outcome of [os.Open]. *)
Definition RecoverFromWAL (open_ok : bool) (w : World) : bool * World :=
  if open_ok then replay (wal_log w) w else (true, w).

(* ===================================================================== *)
(** * Writing a table *)
(* ===================================================================== *)

(** [sort.Strings] over the keys of both maps.  The order in which [range]
    visits a map is unspecified; sorting makes the result independent of it
    (lemma [sst_keys_order_independent] below). *)
Definition sst_keys (s : KeyValueStore) : list string :=
  merge_sort String.le
    ((map_to_list (data s)).*1 ++ (map_to_list (DeletedKeys s)).*1).

(** What one iteration of the entry loop of [WriteSSTable] computes from
    [key] before it writes. *)
Record sst_entry := mkEntry {
  operationMarker : Z;
  entry_key : string;
  entry_value : string
}.

Definition entry_of (s : KeyValueStore) (key : string) : sst_entry :=
  let value := value_of s key in
  let operationMarker := if deleted s key then 1 else 0 in
  mkEntry operationMarker key value.

(** The entries of the table, in the order they are written. *)
Definition sst_entries (s : KeyValueStore) : list sst_entry :=
  entry_of s <$> sst_keys s.

(** The five writes of one iteration of the entry loop. *)
Definition entry_chunks (en : sst_entry) : list string :=
  [ le_bytes 2 (uint16 (operationMarker en));
    le_bytes 4 (uint32 (len (entry_key en)));
    le_bytes 4 (uint32 (len (entry_value en)));
    entry_key en;
    entry_value en ].

(** The four writes of the header. *)
Definition header_chunks (entryCount smallest largest : Z) : list string :=
  [ "SSTB";
    le_bytes 4 (uint32 entryCount);
    le_bytes 4 (uint32 smallest);
    le_bytes 4 (uint32 largest) ].

(** All writes of [WriteSSTable], in order. *)
Definition sst_chunks (s : KeyValueStore) : list string :=
  header_chunks (Z.of_nat (length (sst_keys s)))
    (smallestKeyLength s) (largestKeyLength s)
  ++ concat (entry_chunks <$> sst_entries s).

(** [os.Create]: an existing file of that name is truncated and rewritten in
    place, a new one is added to the directory. *)
Definition create_file (f : sst_file) (files : list sst_file) : list sst_file :=
  if existsb (λ g, bool_decide (fname g = fname f)) files
  then (λ g, if bool_decide (fname g = fname f) then f else g) <$> files
  else files ++ [f].

(** [WriteSSTable(filename)]; the result is [true] on error.  A failing
    write leaves the file with what was written before it and with the
    bytes of its own buffer that it has added. *)
Definition WriteSSTable (e : env) (filename : string) (w : World)
  : bool * World :=
  match sst_fault e with
  | Some O => (true, emit (EvWriteSSTable filename false) w)
  | fault =>
      let chunks := sst_chunks (kv w) in
      let written :=
        match fault with Some (S n) => take n chunks | _ => chunks end in
      let err := bool_decide (length written < length chunks)%nat in
      let bytes :=
        if err
        then str_concat written +:+
             str_take (sst_partial e) (default "" (chunks !! length written))
        else str_concat written in
      (err,
       emit (EvWriteSSTable filename (negb err))
         (with_sstables (create_file (mkSst filename (mtime e) bytes)) w))
  end.

(* ===================================================================== *)
(** * Searching the tables *)
(* ===================================================================== *)

(** [sort.Slice] with [After] as "less" puts the most recently modified file
    first.  Files with equal modification times may come out in any order in
    Go; here they keep the order the merge sort gives them. *)
Definition newer_or_same (f g : sst_file) : Prop := modtime g ≤ modtime f.

#[global] Instance newer_or_same_dec : RelDecision newer_or_same.
Proof. intros f g. unfold newer_or_same. apply _. Defined.

Definition by_modtime (files : list sst_file) : list sst_file :=
  merge_sort newer_or_same files.

(** The loop of [SearchSSTFiles] over the sorted files. *)
Fixpoint search_files (key : string) (files : list sst_file) : string * bool :=
  match files with
  | [] => not_found
  | sstFile :: rest =>
      let '(value, ok) := SearchSSTFile key (contents sstFile) in
      if ok then (value, true) else search_files key rest
  end.

Definition SearchSSTFiles (key : string) (w : World) : string * bool :=
  search_files key (by_modtime (sstables w)).

(* ===================================================================== *)
(** * Get, Set, Delete *)
(* ===================================================================== *)

Definition Get (key : string) (w : World) : string * bool :=
  if deleted (kv w) key then not_found
  else
    match data (kv w) !! key with
    | None => SearchSSTFiles key w
    | Some value => (value, true)
    end.

(** The name [Set] gives the table it flushes to. *)
Definition sstable_name (e : env) : string :=
  "sstable_" +:+ pretty (now e) +:+ ".sst".

(** The update of the smallest and largest key lengths in [Set]. *)
Definition update_key_lengths (key : string) (w : World) : World :=
  let keyLength := len key in
  let w :=
    if (smallestKeyLength (kv w) =? 0)
       || (keyLength <? smallestKeyLength (kv w))
    then with_kv (set_smallestKeyLength keyLength) w else w in
  if largestKeyLength (kv w) <? keyLength
  then with_kv (set_largestKeyLength keyLength) w else w.

(** [Set] up to and including [kv.data[key] = value], for a key that is not
    marked as deleted. *)
Definition Set_store (e : env) (key value : string) (w : World) : World :=
  let w := update_key_lengths key w in
  let w := writeToWAL e (WalRecord "set" key value) w in
  store_data key value w.

(** The threshold check that ends [Set], with the flush it may start. *)
Definition Set_flush (e : env) (w : World) : World :=
  if 10 <=? Z.of_nat (size (data (kv w))) then
    let '(err, w) := WriteSSTable e (sstable_name e) w in
    if err then w
    else
      let w := reset_data w in
      let w := reset_deleted w in
      (ClearWAL e w).2
  else w.

(** [Set(key, value)].  The Go method is called [Set]. *)
Definition Set_ (e : env) (key value : string) (w : World) : World :=
  if deleted (kv w) key then store_deleted key false w
  else Set_flush e (Set_store e key value w).

Definition Delete (e : env) (key : string) (w : World)
  : (string * bool) * World :=
  match data (kv w) !! key with
  | Some value =>
      let w := writeToWAL e (WalRecord "delete" key value) w in
      let w := delete_data key w in
      ((value, true), w)
  | None =>
      let '(value, ok) := Get key w in
      if ok then
        let w := writeToWAL e (WalRecord "delete" key value) w in
        let w := store_deleted key true w in
        ((value, ok), w)
      else ((value, ok), w)
  end.

(* ===================================================================== *)
(** * Start-up and runs *)
(* ===================================================================== *)

(** [NewKeyValueStore("wal.log")] on a directory holding the log [log] and
    the tables [tables]; [None] when the log cannot be opened. *)
Definition NewKeyValueStore (open_ok : bool) (log : list wal_entry)
    (tables : list sst_file) : option World :=
  if open_ok
  then Some (mkWorld (mkKeyValueStore ∅ Open 0 0 ∅) log tables [])
  else None.

(** [main] up to the point where it serves requests: an error of
    [RecoverFromWAL] is logged and the store is served as it is. *)
Definition boot (recover_open_ok : bool) (log : list wal_entry)
    (tables : list sst_file) : option World :=
  w ← NewKeyValueStore true log tables;
  Some (RecoverFromWAL recover_open_ok w).2.

(** A call of the engine together with the outcomes of its system calls. *)
Inductive request :=
| ReqGet (key : string)
| ReqSet (e : env) (key value : string)
| ReqDelete (e : env) (key : string).

Definition serve (w : World) (r : request) : World :=
  match r with
  | ReqGet _ => w
  | ReqSet e key value => Set_ e key value w
  | ReqDelete e key => (Delete e key w).2
  end.

Definition run (rs : list request) (w : World) : World := foldl serve w rs.

(* ===================================================================== *)
(** * Closing the log and the request handlers *)
(* ===================================================================== *)

(** [CloseWAL]: the error of [Close] is dropped. *)
Definition CloseWAL (w : World) : World := with_kv (set_wal Closed) w.

(** What a handler sends back: the status code and the body. *)
Record response := mkResponse {
  status : Z;
  body : string
}.

Definition newline : string := String "010" "".

(** [fmt.Fprintf(w, ...)] on a fresh [ResponseWriter]: status 200. *)
Definition reply (text : string) : response := mkResponse 200 text.

(** [http.Error(w, msg, http.StatusBadRequest)]: the message and a line
    break, status 400. *)
Definition bad_request (msg : string) : response :=
  mkResponse 400 (msg +:+ newline).

(** [r.URL.Query().Get(name)]: the first value of the parameter, or the
    empty string when the parameter is absent. *)
Definition query_get (query : gmap string (list string)) (name : string)
  : string :=
  match query !! name with
  | Some (value :: _) => value
  | _ => ""
  end.

(** [handleGet]. *)
Definition handleGet (query : gmap string (list string)) (w : World)
  : response :=
  let key := query_get query "key" in
  let '(value, ok) := Get key w in
  if ok then reply ("Value: " +:+ value +:+ newline)
  else reply ("Key not found" +:+ newline).

(** [handleSet]; [decoded_body] is what [Decode(&requestBody)] made of the
    body: [None] for an error, otherwise the [map[string]string]. *)
Definition handleSet (e : env) (decoded_body : option (gmap string string))
    (w : World) : response * World :=
  match decoded_body with
  | None => (bad_request "Error decoding JSON body", w)
  | Some requestBody =>
      match requestBody !! "key" with
      | None => (bad_request "Key not found in JSON body", w)
      | Some key =>
          match requestBody !! "value" with
          | None => (bad_request "Value not found in JSON body", w)
          | Some value => (reply ("OK" +:+ newline), Set_ e key value w)
          end
      end
  end.

(** [handleDelete]. *)
Definition handleDelete (e : env) (query : gmap string (list string))
    (w : World) : response * World :=
  let key := query_get query "key" in
  let '((value, ok), w) := Delete e key w in
  if ok then
    (reply ("Deleted key: " +:+ key +:+ ", Value: " +:+ value +:+ newline), w)
  else (reply ("Key not found" +:+ newline), w).

(** The process ends and [main] starts again on the files as they are. *)
Definition restart (w : World) : option World :=
  boot true (wal_log w) (sstables w).

(* ===================================================================== *)
(** * Vocabulary of the statements *)
(* ===================================================================== *)

(** Number of flushes, that is of calls of [WriteSSTable], in a trace. *)
Definition is_flush (ev : event) : bool :=
  match ev with EvWriteSSTable _ _ => true | _ => false end.

Definition flushes (t : list event) : nat :=
  length (List.filter is_flush t).

(** Assignments to the live mapping [kv.data] or to [kv.DeletedKeys]. *)
Definition is_mutation (ev : event) : bool :=
  match ev with
  | EvDataStore _ _ | EvDataDelete _ | EvDeletedStore _ _
  | EvDataReset | EvDeletedReset => true
  | _ => false
  end.

(** The events an operation adds when it takes [w] to [w']. *)
Definition events_of (w w' : World) : list event :=
  drop (length (trace w)) (trace w').

(** [entry] is the log record of request [r]. *)
Definition record_of (r : request) (entry : wal_entry) : Prop :=
  match r, entry with
  | ReqSet _ key value, WalRecord operation key' value' =>
      operation = "set" ∧ key' = key ∧ value' = value
  | ReqDelete _ key, WalRecord operation key' _ =>
      operation = "delete" ∧ key' = key
  | _, _ => False
  end.

(** The events [evs] of request [r] touch neither map, or they start with
    the successful write and sync of the record of [r]. *)
Definition logged_before_mutation (r : request) (evs : list event) : Prop :=
  (∀ ev, ev ∈ evs → is_mutation ev = false) ∨
  (∃ entry rest,
      record_of r entry ∧
      evs = EvWalWrite entry true :: EvWalSync true :: rest).

(** Writes to and syncs of the log succeed. *)
Definition wal_io_ok (e : env) : Prop :=
  wal_write_ok e = true ∧ wal_sync_ok e = true.


Definition request_env (r : request) : option env :=
  match r with
  | ReqGet _ => None
  | ReqSet e _ _ | ReqDelete e _ => Some e
  end.

(** A [Set] of a key that is marked as deleted. *)
Definition sets_deleted_key (w : World) (r : request) : Prop :=
  match r with
  | ReqSet _ key _ => deleted (kv w) key = true
  | _ => False
  end.

(** The part of the state the events speak about. *)
Definition observed (w : World)
  : gmap string string * gmap string bool * list wal_entry :=
  (data (kv w), DeletedKeys (kv w), wal_log w).

(** What an event does to it. *)
Definition event_effect
    (st : gmap string string * gmap string bool * list wal_entry) (ev : event)
  : gmap string string * gmap string bool * list wal_entry :=
  let '(d, m, l) := st in
  match ev with
  | EvWalWrite entry true => (d, m, l ++ [json_entry entry])
  | EvDataStore key value => (<[key := value]> d, m, l)
  | EvDataDelete key => (delete key d, m, l)
  | EvDeletedStore key flag => (d, <[key := flag]> m, l)
  | EvDataReset => (∅, m, l)
  | EvDeletedReset => (d, ∅, l)
  | EvWalTruncate => (d, m, [])
  | EvWalWrite _ false | EvWalSync _ | EvWriteSSTable _ _ => st
  end.

(** [w'] comes from [w] by the events it added to the trace. *)
Definition explained (w w' : World) : Prop :=
  ∃ evs, trace w' = trace w ++ evs ∧
         observed w' = foldl event_effect (observed w) evs.

(** Raw effect of one log entry on a mapping: an insertion for "set", a
    removal for "delete", nothing for anything else. *)
Definition raw_apply (d : gmap string string) (entry : wal_entry)
  : gmap string string :=
  match entry with
  | WalRecord operation key value =>
      if bool_decide (operation = "set") then <[key := value]> d
      else if bool_decide (operation = "delete") then delete key d
      else d
  | WalGarbage => d
  end.

Definition is_record (entry : wal_entry) : bool :=
  match entry with WalRecord _ _ _ => true | WalGarbage => false end.

(** The entries the decoder yields before it stops. *)
Fixpoint decoded (entries : list wal_entry) : list wal_entry :=
  match entries with
  | [] => []
  | entry :: rest => if is_record entry then entry :: decoded rest else []
  end.

(** Keys get marked as deleted only when a table holds them. *)
Definition no_table_no_mark (w : World) : Prop :=
  sstables w = [] → ∀ key, deleted (kv w) key = false.


(** What the reader makes of a list of entries: the first entry with the
    key decides. *)
Fixpoint find_entry (key : string) (entries : list sst_entry) : string * bool :=
  match entries with
  | [] => not_found
  | en :: rest =>
      if bool_decide (entry_key en = key) then
        if operationMarker en =? 1 then ("DELETED", true)
        else (entry_value en, true)
      else find_entry key rest
  end.

(** The fields of the entry fit the widths they are written with. *)
Definition entry_fits (en : sst_entry) : Prop :=
  0 ≤ operationMarker en < 2 ^ 16 ∧
  len (entry_key en) < 2 ^ 32 ∧
  len (entry_value en) < 2 ^ 32.

(** Neither the number of entries nor a length wraps around in a table
    written from [s]. *)
Definition table_fits (s : KeyValueStore) : Prop :=
  Z.of_nat (size (data s) + size (DeletedKeys s)) < 2 ^ 32 ∧
  (∀ key value, data s !! key = Some value →
     len key < 2 ^ 32 ∧ len value < 2 ^ 32) ∧
  (∀ key flag, DeletedKeys s !! key = Some flag → len key < 2 ^ 32).

(** ** Concrete runs used below *)

(** All system calls succeed; the clock reads [t] and the file system
    stamps the files with [t]. *)
Definition calm (t : Z) : env := mkEnv t t true true None 0 None.

Definition fresh : World := mkWorld (mkKeyValueStore ∅ Open 0 0 ∅) [] [] [].

Definition ten_keys (prefix : string) : list string :=
  (λ d, prefix +:+ d) <$> ["0"; "1"; "2"; "3"; "4"; "5"; "6"; "7"; "8"; "9"].

Definition put_all (t : Z) (keys : list string) : list request :=
  (λ key, ReqSet (calm t) key ("v" +:+ key)) <$> keys.

(** Ten keys [k0 .. k9] are set, which flushes them to [sstable_1.sst]. *)
Definition after_first_flush : World := run (put_all 1 (ten_keys "k")) fresh.

(** Then [k0] is deleted: it is found in the table and marked as deleted. *)
Definition after_delete : World :=
  (Delete (calm 1) "k0" after_first_flush).2.

(** Then ten other keys are set, which flushes them and the mark of [k0]
    to [sstable_2.sst]. *)
Definition after_second_flush : World :=
  run (put_all 2 (ten_keys "a")) after_delete.

(** Instead: [k0] is set twice after its deletion, then nine other keys. *)
Definition after_reset : World :=
  run [ReqSet (calm 1) "k0" "x"; ReqSet (calm 1) "k0" "y"] after_delete.

Definition before_duplicate_flush : World :=
  run (put_all 2 (take 8 (ten_keys "a"))) after_reset.

(** Twelve keys in the log. *)
Definition long_log : list wal_entry :=
  (λ key, WalRecord "set" key "v") <$> (ten_keys "k" ++ ["x"; "y"]).

(** A few requests that do not reach the threshold. *)
Definition some_requests : list request :=
  [ReqSet (calm 1) "a" "1"; ReqSet (calm 1) "b" "2"; ReqDelete (calm 1) "a"].


(** Nine keys in the memtable, and a tenth [Set] whose table write fails at
    the fourth [Write]. *)
Definition nine_keys : World := run (put_all 1 (take 9 (ten_keys "k"))) fresh.
Definition failing_write : env := mkEnv 1 1 true true (Some 4%nat) 0 None.



(** ** Vocabulary of the further properties *)

(** The log holds only records, the handle is open and replaying the log on
    an empty mapping gives the live mapping. *)
Definition log_mirrors_data (w : World) : Prop :=
  Forall (λ entry, is_record entry = true) (wal_log w) ∧
  wal (kv w) = Open ∧
  foldl raw_apply ∅ (wal_log w) = data (kv w).

(** Outcomes under which the log keeps mirroring the live mapping: writes
    to the log succeed and so does the clearing of the log. *)
Definition log_io_ok (r : request) : Prop :=
  match request_env r with
  | Some e => wal_write_ok e = true ∧ clear_fault e = None
  | None => True
  end.

(** The string is valid UTF-8: the decoder reads it back from the text the
    encoder writes for it. *)
Definition utf8_valid (s : string) : Prop := json_string s = s.

(** The strings that the request hands to the log and that recovery uses
    are valid UTF-8. *)
Definition logs_utf8 (r : request) : Prop :=
  match r with
  | ReqSet _ key value => utf8_valid key ∧ utf8_valid value
  | ReqDelete _ key => utf8_valid key
  | ReqGet _ => True
  end.

(** Outcomes under which every table is written in full. *)
Definition table_io_ok (r : request) : Prop :=
  match request_env r with
  | Some e => sst_fault e = None
  | None => True
  end.

(** The largest key length bounds the live keys. *)
Definition largest_bounds_keys (w : World) : Prop :=
  ∀ key, is_Some (data (kv w) !! key) → len key ≤ largestKeyLength (kv w).

(** The smallest key length is a positive lower bound of the live keys. *)
Definition smallest_bounds_keys (w : World) : Prop :=
  0 ≤ smallestKeyLength (kv w) ∧
  ∀ key, is_Some (data (kv w) !! key) →
         0 < smallestKeyLength (kv w) ≤ len key.

(** The request does not set the empty key. *)
Definition sets_no_empty_key (r : request) : Prop :=
  match r with
  | ReqSet _ key _ => key ≠ ""
  | _ => True
  end.

(** No key has a live value and a mark at once. *)
Definition live_or_marked (w : World) : Prop :=
  ∀ key, is_Some (data (kv w) !! key) → deleted (kv w) key = false.






(** ** Further concrete runs *)

(** A store with one live key. *)
Definition one_key_store : KeyValueStore :=
  mkKeyValueStore (<["k0" := "old"]> ∅) Open 2 2 ∅.

(** The table written from it at time 0. *)
Definition one_key_table : sst_file :=
  mkSst "sstable_0.sst" 0 (str_concat (sst_chunks one_key_store)).

(** A world whose memtable is [one_key_store]. *)
Definition one_key_world : World := mkWorld one_key_store [] [] [].

(** The write of the value fails after one byte. *)
Definition torn_value : env := mkEnv 1 1 true true (Some 9%nat) 1 None.

(** A store with [k0] live in the memtable and an older value on disk. *)
Definition live_over_table : World :=
  mkWorld (mkKeyValueStore (<["k0" := "new"]> ∅) Open 2 2 ∅)
    [WalRecord "set" "k0" "new"] [one_key_table] [].

(** The clearing of the log fails at the truncation. *)
Definition truncate_fails : env :=
  mkEnv 1 1 true true None 0 (Some TruncateStep).

(** A log with an entry that does not decode between two records. *)
Definition damaged_log : list wal_entry :=
  [WalRecord "set" "a" "1"; WalGarbage; WalRecord "set" "b" "2"].

(** The body and the query of requests for the key "a". *)
Definition body_a : gmap string string :=
  <["key" := "a"]> (<["value" := "1"]> ∅).
Definition query_a : gmap string (list string) := <["key" := ["a"]]> ∅.
Definition query_k0 : gmap string (list string) := <["key" := ["k0"]]> ∅.
Definition body_k0 : gmap string string :=
  <["key" := "k0"]> (<["value" := "new"]> ∅).

(** After the first flush, [k0] is set again and eight other keys are set:
    nine live entries over a table that holds the old value of [k0]. *)
Definition nine_over_table : World :=
  run (ReqSet (calm 2) "k0" "new" :: put_all 2 (take 8 (ten_keys "a")))
    after_first_flush.

(** All system calls succeed; the clock reads 9 while the file system stamps
    the file with 2. *)
Definition clock_ahead : env := mkEnv 9 2 true true None 0 None.

(** All system calls succeed; the clock reads 2 while the file system stamps
    the file with 1, the time stamp of the table that exists. *)
Definition coarse_stamp : env := mkEnv 2 1 true true None 0 None.

(** Requests with a value that is not ASCII: the two bytes of U+00E9. *)
Definition utf8_requests : list request :=
  [ReqSet (calm 1) "name" (String "195" (String "169" ""));
   ReqSet (calm 1) "b" "2"; ReqDelete (calm 1) "b"].

(** A store with two live keys and one mark. *)
Definition three_key_store : KeyValueStore :=
  mkKeyValueStore (<["b" := "2"]> (<["a" := "1"]> ∅)) Open 1 1
    (<["c" := true]> ∅).

(* ===================================================================== *)
(** * Bytes: appending, taking, encoding and decoding *)
(* ===================================================================== *)

Section bytes.
Implicit Types (s t u : string) (c : ascii) (n : nat) (z : Z).

Lemma str_app_cons c s t : String c s +:+ t = String c (s +:+ t).
Proof. reflexivity. Qed.

Lemma str_app_nil_l t : "" +:+ t = t.
Proof. reflexivity. Qed.

Lemma str_app_nil_r s : s +:+ "" = s.
Proof. induction s as [|c s IH]; [done|]. by rewrite str_app_cons, IH. Qed.

Lemma str_app_assoc s t u : (s +:+ t) +:+ u = s +:+ (t +:+ u).
Proof.
  induction s as [|c s IH]; [done|]. by rewrite !str_app_cons, IH.
Qed.

Lemma str_app_length s t :
  String.length (s +:+ t) = (String.length s + String.length t)%nat.
Proof.
  induction s as [|c s IH]; [done|]. rewrite str_app_cons. simpl. by rewrite IH.
Qed.

Lemma str_take_app s t : str_take (String.length s) (s +:+ t) = s.
Proof.
  induction s as [|c s IH]; [by destruct t|].
  rewrite str_app_cons. simpl. by rewrite IH.
Qed.

Lemma str_drop_app s t : str_drop (String.length s) (s +:+ t) = t.
Proof.
  induction s as [|c s IH]; [by destruct t|]. by rewrite str_app_cons.
Qed.

Lemma str_concat_app (l1 l2 : list string) :
  str_concat (l1 ++ l2) = str_concat l1 +:+ str_concat l2.
Proof.
  induction l1 as [|s l1 IH]; [done|]. simpl. by rewrite IH, str_app_assoc.
Qed.

Lemma Z_of_byte_of_Z z : Z_of_byte (byte_of_Z z) = z mod 256.
Proof.
  unfold Z_of_byte, byte_of_Z.
  pose proof (Z.mod_pos_bound z 256 ltac:(lia)).
  rewrite N_ascii_embedding by lia. lia.
Qed.

Lemma le_bytes_length n z : String.length (le_bytes n z) = n.
Proof.
  revert z. induction n as [|n IH]; intros z; simpl; [done|]. by rewrite IH.
Qed.

(** Decoding what was encoded gives the value reduced to the width. *)
Lemma le_value_bytes n z : le_value (le_bytes n z) = z mod 256 ^ Z.of_nat n.
Proof.
  revert z. induction n as [|n IH]; intros z.
  - simpl. by rewrite Z.mod_1_r.
  - cbn [le_bytes le_value]. rewrite Z_of_byte_of_Z, IH.
    rewrite Nat2Z.inj_succ, Z.pow_succ_r by lia.
    rewrite Z.rem_mul_r by lia. lia.
Qed.

Lemma read_full_app s t :
  read_full (String.length s) (s +:+ t) = Some (s, t).
Proof.
  unfold read_full. rewrite str_app_length, str_take_app, str_drop_app.
  by rewrite (proj2 (Nat.leb_le _ _)) by lia.
Qed.

Lemma read_uint_bytes n z t :
  read_uint n (le_bytes n z +:+ t) = Some (z mod 256 ^ Z.of_nat n, t).
Proof.
  unfold read_uint.
  rewrite <- (le_bytes_length n z) at 1. rewrite read_full_app.
  by rewrite le_value_bytes.
Qed.

Lemma file_read_app s t :
  file_read (String.length s) (s +:+ t) = Some (s, t).
Proof.
  destruct s as [|c s]; [done|].
  unfold file_read. cbn [String.length]. rewrite str_app_cons.
  change (S (String.length s)) with (String.length (String c s)).
  rewrite <- str_app_cons, str_take_app, str_drop_app, Nat.sub_diag.
  by rewrite str_app_nil_r.
Qed.
End bytes.

(* ===================================================================== *)
(** * Frame lemmas for the assignments and the log *)
(* ===================================================================== *)

(** Unfolds the assignments of the source and projects the fields out of
    the worlds they build. *)
Ltac assignments :=
  unfold store_data, delete_data, store_deleted, reset_data, reset_deleted;
  cbn [kv data wal DeletedKeys wal_log sstables trace
       emit with_kv set_data set_DeletedKeys].

Ltac assignments_in H :=
  unfold store_data, delete_data, store_deleted, reset_data, reset_deleted in H;
  cbn [kv data wal DeletedKeys wal_log sstables trace
       emit with_kv set_data set_DeletedKeys] in H.

Section frames.
Implicit Types (w : World) (e : env) (key value : string).

Lemma writeToWAL_kv e entry w : kv (writeToWAL e entry w) = kv w.
Proof. unfold writeToWAL. by destruct (_ && wal_write_ok e). Qed.

Lemma writeToWAL_sstables e entry w :
  sstables (writeToWAL e entry w) = sstables w.
Proof. unfold writeToWAL. by destruct (_ && wal_write_ok e). Qed.

Lemma writeToWAL_wal_log e entry w :
  wal_log (writeToWAL e entry w) =
    if is_open (wal (kv w)) && wal_write_ok e
    then wal_log w ++ [json_entry entry] else wal_log w.
Proof. unfold writeToWAL. by destruct (_ && wal_write_ok e). Qed.

Lemma writeToWAL_trace e entry w :
  trace (writeToWAL e entry w) =
    trace w ++ [EvWalWrite entry (is_open (wal (kv w)) && wal_write_ok e);
                EvWalSync (is_open (wal (kv w)) && wal_sync_ok e)].
Proof.
  unfold writeToWAL.
  destruct (_ && wal_write_ok e); simpl; by rewrite <- app_assoc.
Qed.

(** The key-length bookkeeping that opens [Set] touches nothing else. *)
Lemma update_key_lengths_frame key w :
  let w' := update_key_lengths key w in
  data (kv w') = data (kv w) ∧ DeletedKeys (kv w') = DeletedKeys (kv w) ∧
  wal (kv w') = wal (kv w) ∧ wal_log w' = wal_log w ∧
  sstables w' = sstables w ∧ trace w' = trace w.
Proof. unfold update_key_lengths. cbv zeta. by repeat case_match. Qed.

Lemma Set_store_data e key value w :
  data (kv (Set_store e key value w)) = <[key := value]> (data (kv w)).
Proof.
  destruct (update_key_lengths_frame key w) as (Hd & _).
  unfold Set_store. assignments.
  by rewrite writeToWAL_kv, Hd.
Qed.

Lemma Set_store_DeletedKeys e key value w :
  DeletedKeys (kv (Set_store e key value w)) = DeletedKeys (kv w).
Proof.
  destruct (update_key_lengths_frame key w) as (_ & Hd & _).
  unfold Set_store. assignments.
  by rewrite writeToWAL_kv, Hd.
Qed.

Lemma Set_store_wal e key value w :
  wal (kv (Set_store e key value w)) = wal (kv w).
Proof.
  destruct (update_key_lengths_frame key w) as (_ & _ & Hd & _).
  unfold Set_store. assignments.
  by rewrite writeToWAL_kv, Hd.
Qed.

Lemma Set_store_sstables e key value w :
  sstables (Set_store e key value w) = sstables w.
Proof.
  destruct (update_key_lengths_frame key w) as (_ & _ & _ & _ & Hd & _).
  unfold Set_store. assignments.
  by rewrite writeToWAL_sstables, Hd.
Qed.

Lemma Set_store_wal_log e key value w :
  wal_log (Set_store e key value w) =
    if is_open (wal (kv w)) && wal_write_ok e
    then wal_log w ++ [WalRecord "set" (json_string key) (json_string value)]
    else wal_log w.
Proof.
  destruct (update_key_lengths_frame key w) as (_ & _ & Hh & Hd & _).
  unfold Set_store. assignments.
  by rewrite writeToWAL_wal_log, Hh, Hd.
Qed.

Lemma Set_store_trace e key value w :
  trace (Set_store e key value w) =
    trace w ++
    [EvWalWrite (WalRecord "set" key value)
       (is_open (wal (kv w)) && wal_write_ok e);
     EvWalSync (is_open (wal (kv w)) && wal_sync_ok e);
     EvDataStore key value].
Proof.
  destruct (update_key_lengths_frame key w) as (_ & _ & Hh & _ & _ & Hd).
  unfold Set_store. assignments.
  by rewrite writeToWAL_trace, Hh, Hd, <- app_assoc.
Qed.
End frames.

Section flush_frames.
Implicit Types (w : World) (e : env).

Lemma WriteSSTable_kv e filename w : kv (WriteSSTable e filename w).2 = kv w.
Proof. unfold WriteSSTable. by repeat case_match. Qed.

Lemma WriteSSTable_wal_log e filename w :
  wal_log (WriteSSTable e filename w).2 = wal_log w.
Proof. unfold WriteSSTable. by repeat case_match. Qed.

Lemma WriteSSTable_trace e filename w :
  trace (WriteSSTable e filename w).2 =
    trace w ++ [EvWriteSSTable filename (negb (WriteSSTable e filename w).1)].
Proof. unfold WriteSSTable. by repeat case_match. Qed.

(** The threshold check does nothing below ten live entries. *)
Lemma Set_flush_below e w :
  (size (data (kv w)) < 10)%nat → Set_flush e w = w.
Proof.
  intros Hlt. unfold Set_flush.
  destruct (10 <=? _) eqn:E; [apply Z.leb_le in E; lia | done].
Qed.

(** A flush whose table write fails returns at once. *)
Lemma Set_flush_failed e w :
  (10 ≤ size (data (kv w)))%nat →
  (WriteSSTable e (sstable_name e) w).1 = true →
  Set_flush e w = (WriteSSTable e (sstable_name e) w).2.
Proof.
  intros Hge Herr. unfold Set_flush.
  destruct (10 <=? _) eqn:E; [|apply Z.leb_gt in E; lia].
  destruct (WriteSSTable _ _ _) as [err w']. simpl in *. by subst.
Qed.
End flush_frames.

(** C3.  When [key] is marked as deleted, [Set(key, value)] sets its flag in
    [kv.DeletedKeys] to [false] and does nothing else: [value] is not stored
    (the live mapping, and so its entry for [key], is unchanged), the key
    lengths, the log, the tables and the log handle are as before, and the
    only event is the assignment of the flag. *)
Theorem Set_on_deleted_key_only_clears_flag e key value w :
  DeletedKeys (kv w) !! key = Some true →
  let w' := Set_ e key value w in
  DeletedKeys (kv w') = <[key := false]> (DeletedKeys (kv w)) ∧
  data (kv w') = data (kv w) ∧
  data (kv w') !! key = data (kv w) !! key ∧
  smallestKeyLength (kv w') = smallestKeyLength (kv w) ∧
  largestKeyLength (kv w') = largestKeyLength (kv w) ∧
  wal (kv w') = wal (kv w) ∧
  wal_log w' = wal_log w ∧
  sstables w' = sstables w ∧
  trace w' = trace w ++ [EvDeletedStore key false].
Proof.
  intros Hdel. unfold Set_, deleted. rewrite Hdel. simpl. done.
Qed.

Lemma Set_on_deleted_key_only_clears_flag_witness :
  DeletedKeys (kv after_delete) !! "k0" = Some true ∧
  let w' := Set_ (calm 1) "k0" "x" after_delete in
  DeletedKeys (kv w') = <["k0" := false]> (DeletedKeys (kv after_delete)) ∧
  data (kv w') = data (kv after_delete) ∧
  data (kv w') !! "k0" = data (kv after_delete) !! "k0" ∧
  smallestKeyLength (kv w') = smallestKeyLength (kv after_delete) ∧
  largestKeyLength (kv w') = largestKeyLength (kv after_delete) ∧
  wal (kv w') = wal (kv after_delete) ∧
  wal_log w' = wal_log after_delete ∧
  sstables w' = sstables after_delete ∧
  trace w' = trace after_delete ++ [EvDeletedStore "k0" false].
Proof.
  assert (DeletedKeys (kv after_delete) !! "k0" = Some true) as H
    by (vm_compute; reflexivity).
  split; [exact H|].
  exact (Set_on_deleted_key_only_clears_flag (calm 1) "k0" "x" after_delete H).
Defined.

(** C7.  When [Set] reaches the threshold and [WriteSSTable] returns an
    error, the store after [Set] is the store as it was just before the
    flush was attempted, that is after [kv.data[key] = value]: the live
    mapping, the marks and the contents of the log are unchanged; the
    memtable is not cleared and the log is not truncated. *)
Theorem failed_flush_leaves_memtable_and_log e key value w :
  deleted (kv w) key = false →
  let before_flush := Set_store e key value w in
  (10 ≤ size (data (kv before_flush)))%nat →
  (WriteSSTable e (sstable_name e) before_flush).1 = true →
  let w' := Set_ e key value w in
  data (kv w') = data (kv before_flush) ∧
  DeletedKeys (kv w') = DeletedKeys (kv before_flush) ∧
  wal_log w' = wal_log before_flush ∧
  kv w' = kv before_flush.
Proof.
  intros Hdel before_flush Hfull Herr. unfold Set_. rewrite Hdel. cbv zeta.
  fold before_flush. rewrite (Set_flush_failed _ _ Hfull Herr).
  by rewrite WriteSSTable_kv, WriteSSTable_wal_log.
Qed.

Lemma failed_flush_leaves_memtable_and_log_witness :
  deleted (kv nine_keys) "k9" = false ∧
  (10 ≤ size (data (kv (Set_store failing_write "k9" "v" nine_keys))))%nat ∧
  (WriteSSTable failing_write (sstable_name failing_write)
     (Set_store failing_write "k9" "v" nine_keys)).1 = true ∧
  let before_flush := Set_store failing_write "k9" "v" nine_keys in
  let w' := Set_ failing_write "k9" "v" nine_keys in
  data (kv w') = data (kv before_flush) ∧
  DeletedKeys (kv w') = DeletedKeys (kv before_flush) ∧
  wal_log w' = wal_log before_flush ∧
  kv w' = kv before_flush.
Proof.
  assert (deleted (kv nine_keys) "k9" = false) as H1
    by (vm_compute; reflexivity).
  assert (10 ≤ size (data (kv (Set_store failing_write "k9" "v"
                                  nine_keys))))%nat
    as H2 by (vm_compute; lia).
  assert ((WriteSSTable failing_write (sstable_name failing_write)
             (Set_store failing_write "k9" "v" nine_keys)).1 = true)
    as H3 by (vm_compute; reflexivity).
  split; [exact H1|]. split; [exact H2|]. split; [exact H3|].
  exact (failed_flush_leaves_memtable_and_log failing_write "k9" "v" nine_keys
           H1 H2 H3).
Defined.

(* ===================================================================== *)
(** * Searching, deleting an unknown key, recovery *)
(* ===================================================================== *)

Section search.
Implicit Types (key : string) (files : list sst_file) (w : World).

(** Every unsuccessful path of the reader returns [(nil, false)]. *)
Lemma scan_entries_miss count key rest :
  (scan_entries count key rest).2 = false →
  scan_entries count key rest = not_found.
Proof.
  revert rest. induction count as [|count IH]; intros rest; simpl; [done|].
  repeat case_match; simpl; try done. apply IH.
Qed.

Lemma SearchSSTFile_miss key c :
  (SearchSSTFile key c).2 = false → SearchSSTFile key c = not_found.
Proof.
  unfold SearchSSTFile. repeat case_match; try done. apply scan_entries_miss.
Qed.

Lemma search_files_all_miss key files :
  (∀ f, f ∈ files → (SearchSSTFile key (contents f)).2 = false) →
  search_files key files = not_found.
Proof.
  induction files as [|f files IH]; intros Hmiss; simpl; [done|].
  specialize (Hmiss f (list_elem_of_here _ _)) as Hf.
  destruct (SearchSSTFile key (contents f)) as [value ok]. simpl in Hf.
  subst ok. apply IH. intros g Hg. apply Hmiss. by right.
Qed.

Lemma SearchSSTFiles_all_miss key w :
  (∀ f, f ∈ sstables w → (SearchSSTFile key (contents f)).2 = false) →
  SearchSSTFiles key w = not_found.
Proof.
  intros Hmiss. apply search_files_all_miss. intros f Hf. apply Hmiss.
  unfold by_modtime in Hf. by rewrite merge_sort_Permutation in Hf.
Qed.

(** The search stops at the first file that has the key: the files after
    it have no influence on the result. *)
Lemma search_files_stops key older f newer value :
  (∀ g, g ∈ newer → (SearchSSTFile key (contents g)).2 = false) →
  SearchSSTFile key (contents f) = (value, true) →
  search_files key (newer ++ f :: older) = (value, true).
Proof.
  intros Hmiss Hf. induction newer as [|g newer IH]; simpl.
  - by rewrite Hf.
  - specialize (Hmiss g (list_elem_of_here _ _)) as Hg.
    destruct (SearchSSTFile key (contents g)) as [v ok]. simpl in Hg.
    subst ok. apply IH. intros h Hh. apply Hmiss. by right.
Qed.
End search.

(** C9.  [Delete] of a key that has no live value, is not marked as deleted
    and is found in no table returns [(nil, false)] and leaves the whole
    world as it is: no record is appended to the log and neither map is
    assigned (the trace, too, is unchanged). *)
Theorem Delete_of_unknown_key_changes_nothing e key w :
  data (kv w) !! key = None →
  deleted (kv w) key = false →
  (∀ f, f ∈ sstables w → (SearchSSTFile key (contents f)).2 = false) →
  Delete e key w = (("", false), w).
Proof.
  intros Hdata Hdel Hmiss. unfold Delete, Get. rewrite Hdata, Hdel.
  by rewrite (SearchSSTFiles_all_miss _ _ Hmiss).
Qed.

Lemma Delete_of_unknown_key_changes_nothing_witness :
  data (kv after_first_flush) !! "zz" = None ∧
  deleted (kv after_first_flush) "zz" = false ∧
  (∀ f, f ∈ sstables after_first_flush →
        (SearchSSTFile "zz" (contents f)).2 = false) ∧
  Delete (calm 1) "zz" after_first_flush = (("", false), after_first_flush).
Proof.
  assert (data (kv after_first_flush) !! "zz" = None) as H1
    by (vm_compute; reflexivity).
  assert (deleted (kv after_first_flush) "zz" = false) as H2
    by (vm_compute; reflexivity).
  assert (∀ f, f ∈ sstables after_first_flush →
               (SearchSSTFile "zz" (contents f)).2 = false) as H3.
  { intros f Hf.
    assert (∃ g, sstables after_first_flush = [g] ∧
                 (SearchSSTFile "zz" (contents g)).2 = false)
      as (g & Heq & Hg) by (eexists; split; vm_compute; reflexivity).
    rewrite Heq in Hf. apply list_elem_of_singleton in Hf. by subst f. }
  split; [exact H1|]. split; [exact H2|]. split; [exact H3|].
  exact (Delete_of_unknown_key_changes_nothing (calm 1) "zz" after_first_flush
           H1 H2 H3).
Defined.

Section recovery.
Implicit Types (entries : list wal_entry) (w : World).

Lemma replay_frame entries w :
  let w' := (replay entries w).2 in
  DeletedKeys (kv w') = DeletedKeys (kv w) ∧
  wal_log w' = wal_log w ∧ sstables w' = sstables w ∧
  wal (kv w') = wal (kv w) ∧
  flushes (trace w') = flushes (trace w).
Proof.
  revert w. induction entries as [|[operation key value|] entries IH];
    intros w; simpl; [done| |done].
  repeat case_match.
  - destruct (IH (store_data key value w)) as (-> & -> & -> & -> & ->).
    repeat split. unfold store_data, flushes. simpl.
    by rewrite List.filter_app, length_app, Nat.add_0_r.
  - destruct (IH (delete_data key w)) as (-> & -> & -> & -> & ->).
    repeat split. unfold delete_data, flushes. simpl.
    by rewrite List.filter_app, length_app, Nat.add_0_r.
  - apply IH.
Qed.

Lemma replay_data entries w :
  data (kv (replay entries w).2) =
    foldl raw_apply (data (kv w)) (decoded entries).
Proof.
  revert w. induction entries as [|[operation key value|] entries IH];
    intros w; simpl; [done| |done].
  repeat case_match; by rewrite IH.
Qed.

(** [RecoverFromWAL] returns an error exactly when some entry does not
    decode. *)
Lemma replay_error entries w :
  (replay entries w).1 = bool_decide (WalGarbage ∈ entries).
Proof.
  revert w. induction entries as [|[operation key value|] entries IH];
    intros w; simpl.
  - done.
  - assert (bool_decide
              (WalGarbage ∈ WalRecord operation key value :: entries)
            = bool_decide (WalGarbage ∈ entries)) as ->.
    { apply bool_decide_ext. rewrite elem_of_cons.
      split; [by intros [?|?] | by right]. }
    repeat case_match; apply IH.
  - done.
Qed.
(** A log that holds only records is decoded to its end. *)
Lemma decoded_all_records entries :
  Forall (λ entry, is_record entry = true) entries →
  decoded entries = entries.
Proof.
  induction 1 as [|entry entries Hrec _ IH]; [done|]. simpl.
  by rewrite Hrec, IH.
Qed.
End recovery.

(** C8.  [RecoverFromWAL] applies the entries the decoder yields, in file
    order, to the live mapping alone: "set" is a raw insertion, "delete" a
    raw removal.  It never assigns [kv.DeletedKeys], leaves the tables and
    the log as they are and never calls [WriteSSTable], whatever the size of
    the resulting mapping ([recovery_above_threshold_does_not_flush] below
    recovers twelve live entries).  [decoded l] is [l] itself when the log
    holds only records ([decoded_all_records]). *)
Theorem RecoverFromWAL_replays_log_raw open_ok w :
  let w' := (RecoverFromWAL open_ok w).2 in
  data (kv w') =
    foldl raw_apply (data (kv w))
      (if open_ok then decoded (wal_log w) else []) ∧
  DeletedKeys (kv w') = DeletedKeys (kv w) ∧
  sstables w' = sstables w ∧
  wal_log w' = wal_log w ∧
  flushes (trace w') = flushes (trace w).
Proof.
  unfold RecoverFromWAL. destruct open_ok; [|done]. cbv zeta.
  rewrite replay_data.
  by destruct (replay_frame (wal_log w) w) as (-> & -> & -> & _ & ->).
Qed.

(** Recovery can leave more than ten live entries in the memtable. *)
Lemma recovery_above_threshold_does_not_flush :
  ∃ w, boot true long_log [] = Some w ∧
       size (data (kv w)) = 12%nat ∧ sstables w = [] ∧
       flushes (trace w) = 0%nat ∧ wal_log w = long_log.
Proof. eexists. split; [reflexivity|]. split_and!; vm_compute; reflexivity. Qed.

(* ===================================================================== *)
(** * The flush at the threshold *)
(* ===================================================================== *)

Section flush.
Implicit Types (w : World) (e : env).

Lemma create_file_not_nil f files : create_file f files ≠ [].
Proof.
  unfold create_file. destruct (existsb _ files) eqn:E.
  - destruct files; [done|]. done.
  - by destruct files.
Qed.

Lemma flushes_app t1 t2 : flushes (t1 ++ t2) = (flushes t1 + flushes t2)%nat.
Proof. unfold flushes. by rewrite List.filter_app, length_app. Qed.

Lemma ClearWAL_frame e w :
  let w' := (ClearWAL e w).2 in
  data (kv w') = data (kv w) ∧ DeletedKeys (kv w') = DeletedKeys (kv w) ∧
  sstables w' = sstables w ∧ flushes (trace w') = flushes (trace w).
Proof.
  unfold ClearWAL. cbv zeta. repeat case_match; simpl; repeat split;
    by rewrite ?flushes_app, ?Nat.add_0_r.
Qed.

Lemma ClearWAL_ok e w :
  wal (kv w) = Open → clear_fault e = None →
  wal_log (ClearWAL e w).2 = [] ∧ wal (kv (ClearWAL e w).2) = Open.
Proof. intros Hopen Hfault. unfold ClearWAL. by rewrite Hopen, Hfault. Qed.

(** A table write that reports no error wrote every chunk. *)
Lemma WriteSSTable_ok e filename w :
  (WriteSSTable e filename w).1 = false →
  sstables (WriteSSTable e filename w).2 =
    create_file (mkSst filename (mtime e) (str_concat (sst_chunks (kv w))))
      (sstables w).
Proof.
  unfold WriteSSTable. generalize (sst_chunks (kv w)) as chunks.
  intros chunks. destruct (sst_fault e) as [[|n]|]; cbv zeta; [done|..];
    cbn [fst snd]; intros Hok; rewrite Hok; [|done].
  apply bool_decide_eq_false in Hok.
  rewrite take_ge; [done|]. rewrite length_take in Hok. lia.
Qed.

Lemma WriteSSTable_no_fault e filename w :
  sst_fault e = None → (WriteSSTable e filename w).1 = false.
Proof.
  intros Hfault. unfold WriteSSTable. rewrite Hfault.
  apply bool_decide_eq_false. lia.
Qed.

(** Unless [os.Create] fails, a flush leaves a file behind. *)
Lemma WriteSSTable_sstables_nil e filename w :
  sstables (WriteSSTable e filename w).2 = [] →
  (WriteSSTable e filename w).1 = true ∧ sstables w = [].
Proof.
  unfold WriteSSTable. destruct (sst_fault e) as [[|n]|]; simpl; [done|..];
    intros H; by apply create_file_not_nil in H.
Qed.

(** What the threshold check does, case by case. *)
Lemma Set_flush_unfold e w :
  Set_flush e w =
    if bool_decide (10 ≤ size (data (kv w)))%nat then
      let r := WriteSSTable e (sstable_name e) w in
      if r.1 then r.2 else (ClearWAL e (reset_deleted (reset_data r.2))).2
    else w.
Proof.
  unfold Set_flush. case_bool_decide as Hsz.
  - destruct (10 <=? _) eqn:E; [|apply Z.leb_gt in E; lia].
    by destruct (WriteSSTable _ _ _) as [[] ?].
  - destruct (10 <=? _) eqn:E; [apply Z.leb_le in E; lia|done].
Qed.

Lemma Set_flush_flushes e w :
  flushes (trace (Set_flush e w)) =
    (flushes (trace w) +
     if bool_decide (10 ≤ size (data (kv w)))%nat then 1 else 0)%nat.
Proof.
  rewrite Set_flush_unfold. case_bool_decide; [|lia]. cbv zeta.
  destruct (WriteSSTable e (sstable_name e) w).1 eqn:Herr.
  - rewrite WriteSSTable_trace, flushes_app, Herr. unfold flushes. simpl. lia.
  - destruct (ClearWAL_frame e
      (reset_deleted (reset_data (WriteSSTable e (sstable_name e) w).2)))
      as (_ & _ & _ & ->).
    assignments.
    rewrite WriteSSTable_trace, !flushes_app. unfold flushes. simpl. lia.
Qed.

Lemma Set_flush_sstables_nil e w :
  sstables (Set_flush e w) = [] → Set_flush e w = w ∨
    (kv (Set_flush e w) = kv w ∧ sstables w = []).
Proof.
  rewrite Set_flush_unfold. case_bool_decide; [|by left]. cbv zeta.
  destruct (WriteSSTable e (sstable_name e) w).1 eqn:Herr.
  - intros Hnil. right. rewrite WriteSSTable_kv.
    by apply WriteSSTable_sstables_nil in Hnil as [_ ?].
  - intros Hnil.
    destruct (ClearWAL_frame e
      (reset_deleted (reset_data (WriteSSTable e (sstable_name e) w).2)))
      as (_ & _ & Hs & _).
    rewrite Hs in Hnil. unfold reset_deleted, reset_data in Hnil.
    assignments_in Hnil.
    apply WriteSSTable_sstables_nil in Hnil as [? _]. congruence.
Qed.

Lemma Set_flush_DeletedKeys e w :
  DeletedKeys (kv (Set_flush e w)) = DeletedKeys (kv w) ∨
  DeletedKeys (kv (Set_flush e w)) = ∅.
Proof.
  rewrite Set_flush_unfold. case_bool_decide; [|by left]. cbv zeta.
  destruct (WriteSSTable e (sstable_name e) w).1 eqn:Herr.
  - left. by rewrite WriteSSTable_kv.
  - right.
    destruct (ClearWAL_frame e
      (reset_deleted (reset_data (WriteSSTable e (sstable_name e) w).2)))
      as (_ & -> & _). done.
Qed.

End flush.

(* ===================================================================== *)
(** * Set then Get before any flush *)
(* ===================================================================== *)

Section before_any_flush.
Implicit Types (w : World) (e : env) (r : request) (key value : string).

Lemma Delete_sstables e key w : sstables (Delete e key w).2 = sstables w.
Proof.
  unfold Delete. destruct (data (kv w) !! key); cbn [snd].
  - assignments.
    apply writeToWAL_sstables.
  - destruct (Get key w) as [value []]; cbn [snd]; [|done].
    assignments.
    apply writeToWAL_sstables.
Qed.

Lemma Set_sstables_nil e key value w :
  sstables (Set_ e key value w) = [] → sstables w = [].
Proof.
  unfold Set_. destruct (deleted (kv w) key); [done|]. intros Hnil.
  destruct (Set_flush_sstables_nil _ _ Hnil) as [Heq | [_ Hnil']].
  - rewrite Heq in Hnil. by rewrite Set_store_sstables in Hnil.
  - by rewrite Set_store_sstables in Hnil'.
Qed.

Lemma serve_sstables_nil w r : sstables (serve w r) = [] → sstables w = [].
Proof.
  destruct r as [key | e key value | e key]; simpl; [done|..].
  - apply Set_sstables_nil.
  - by rewrite Delete_sstables.
Qed.

Lemma run_sstables_nil rs w : sstables (run rs w) = [] → sstables w = [].
Proof.
  revert w. induction rs as [|r rs IH]; intros w; simpl; [done|].
  intros Hnil. apply IH in Hnil. by apply serve_sstables_nil in Hnil.
Qed.

(** With no table on disk nothing can be found there. *)
Lemma Get_no_table key w :
  sstables w = [] → deleted (kv w) key = false →
  Get key w =
    match data (kv w) !! key with
    | Some value => (value, true)
    | None => not_found
    end.
Proof.
  intros Hnil Hdel. unfold Get, SearchSSTFiles. by rewrite Hdel, Hnil.
Qed.

Lemma Set_no_table_no_mark e key value w :
  no_table_no_mark w → no_table_no_mark (Set_ e key value w).
Proof.
  intros Hinv Hnil key'. pose proof (Set_sstables_nil _ _ _ _ Hnil) as Hnil0.
  specialize (Hinv Hnil0). unfold Set_ in *.
  rewrite (Hinv key) in *.
  unfold deleted.
  destruct (Set_flush_DeletedKeys e (Set_store e key value w)) as [-> | ->].
  - rewrite Set_store_DeletedKeys. apply Hinv.
  - by rewrite lookup_empty.
Qed.

Lemma Delete_no_table_no_mark e key w :
  no_table_no_mark w → no_table_no_mark (Delete e key w).2.
Proof.
  intros Hinv Hnil key'. rewrite Delete_sstables in Hnil.
  specialize (Hinv Hnil). unfold Delete.
  rewrite (Get_no_table key w Hnil (Hinv key)).
  destruct (data (kv w) !! key); cbn [snd]; [|apply Hinv].
  unfold deleted. assignments.
  rewrite writeToWAL_kv. apply Hinv.
Qed.

Lemma serve_no_table_no_mark w r :
  no_table_no_mark w → no_table_no_mark (serve w r).
Proof.
  destruct r; simpl; auto using Set_no_table_no_mark, Delete_no_table_no_mark.
Qed.

Lemma run_no_table_no_mark rs w :
  no_table_no_mark w → no_table_no_mark (run rs w).
Proof.
  revert w. induction rs as [|r rs IH]; intros w Hinv; simpl; [done|].
  by apply IH, serve_no_table_no_mark.
Qed.

Lemma boot_no_table_no_mark recover_open_ok log tables w :
  boot recover_open_ok log tables = Some w → no_table_no_mark w.
Proof.
  unfold boot, NewKeyValueStore. simpl. intros [= <-] _ key.
  unfold deleted, RecoverFromWAL. destruct recover_open_ok; simpl; [|done].
  match goal with |- context [replay ?l ?w] =>
    destruct (replay_frame l w) as (-> & _) end.
  done.
Qed.
End before_any_flush.

(** C2.  On a store started on a directory without tables and then served
    any requests, [Set(key, value)] followed by [Get(key)] returns
    [(value, true)] as long as no table has been written, the [Set] itself
    included.  Keys and values are arbitrary byte strings. *)
Theorem Set_then_Get_before_any_flush recover_open_ok log rs w0 e key value :
  boot recover_open_ok log [] = Some w0 →
  let w := Set_ e key value (run rs w0) in
  sstables w = [] →
  Get key w = (value, true).
Proof.
  intros Hboot w Hnil.
  assert (no_table_no_mark (run rs w0)) as Hinv
    by eauto using run_no_table_no_mark, boot_no_table_no_mark.
  pose proof (Set_no_table_no_mark e key value _ Hinv Hnil key) as Hdel.
  pose proof (Set_sstables_nil _ _ _ _ Hnil) as Hnil0.
  rewrite (Get_no_table key w Hnil Hdel).
  subst w. unfold Set_ in *. rewrite (Hinv Hnil0 key) in *.
  apply Set_flush_sstables_nil in Hnil as [-> | [-> _]];
    by rewrite Set_store_data, lookup_insert_eq.
Qed.

Lemma Set_then_Get_before_any_flush_witness :
  boot true [] [] = Some fresh ∧
  sstables (Set_ (calm 1) "a" "3" (run some_requests fresh)) = [] ∧
  Get "a" (Set_ (calm 1) "a" "3" (run some_requests fresh)) = ("3", true).
Proof.
  assert (sstables (Set_ (calm 1) "a" "3" (run some_requests fresh)) = [])
    as H by (vm_compute; reflexivity).
  split; [reflexivity|]. split; [exact H|].
  exact (Set_then_Get_before_any_flush true [] some_requests fresh
           (calm 1) "a" "3" eq_refl H).
Defined.

(* ===================================================================== *)
(** * Ten distinct keys *)
(* ===================================================================== *)

Section threshold.
Implicit Types (w : World) (e : env) (key value : string).
Implicit Types (l : list (env * string * string)).


Lemma Set_flushes e key value w :
  flushes (trace (Set_ e key value w)) =
    (flushes (trace w) +
     if deleted (kv w) key then 0
     else if bool_decide (10 ≤ size (<[key := value]> (data (kv w))))%nat
          then 1 else 0)%nat.
Proof.
  unfold Set_. destruct (deleted (kv w) key).
  - assignments.
    rewrite flushes_app. unfold flushes. simpl. lia.
  - rewrite Set_flush_flushes, Set_store_data, Set_store_trace, flushes_app.
    unfold flushes. simpl. lia.
Qed.

(** Below the threshold [Set] ends with the assignment to [kv.data]. *)
Lemma Set_below e key value w :
  deleted (kv w) key = false →
  (size (<[key := value]> (data (kv w))) < 10)%nat →
  Set_ e key value w = Set_store e key value w.
Proof.
  intros Hdel Hsz. unfold Set_. rewrite Hdel. apply Set_flush_below.
  by rewrite Set_store_data.
Qed.

Lemma deleted_empty (s : KeyValueStore) key :
  DeletedKeys s = ∅ → deleted s key = false.
Proof. intros H. unfold deleted. by rewrite H, lookup_empty. Qed.

End threshold.

(* ===================================================================== *)
(** * The log record comes before the assignment *)
(* ===================================================================== *)

Section traces.
Implicit Types (w : World) (e : env) (r : request) (key value : string).

Lemma events_of_app w w' evs :
  trace w' = trace w ++ evs → events_of w w' = evs.
Proof. intros H. unfold events_of. by rewrite H, drop_app_length. Qed.

Lemma ClearWAL_trace e w : ∃ rest, trace (ClearWAL e w).2 = trace w ++ rest.
Proof.
  unfold ClearWAL. repeat case_match; simpl; eauto using app_nil_r.
Qed.

Lemma Set_flush_trace e w : ∃ rest, trace (Set_flush e w) = trace w ++ rest.
Proof.
  rewrite Set_flush_unfold.
  case_bool_decide; [|by exists []; rewrite app_nil_r].
  cbv zeta. destruct (WriteSSTable e (sstable_name e) w).1 eqn:Herr.
  - rewrite WriteSSTable_trace. eauto.
  - destruct (ClearWAL_trace e
      (reset_deleted (reset_data (WriteSSTable e (sstable_name e) w).2)))
      as [rest ->].
    assignments.
    rewrite WriteSSTable_trace, <- !app_assoc. eauto.
Qed.

(** A [Set] of a key that is not marked starts with the write and the sync
    of its record, followed by the assignment to [kv.data]. *)
Lemma Set_events e key value w :
  deleted (kv w) key = false →
  ∃ rest,
    events_of w (Set_ e key value w) =
      EvWalWrite (WalRecord "set" key value)
        (is_open (wal (kv w)) && wal_write_ok e)
      :: EvWalSync (is_open (wal (kv w)) && wal_sync_ok e)
      :: EvDataStore key value :: rest.
Proof.
  intros Hdel. unfold Set_. rewrite Hdel.
  destruct (Set_flush_trace e (Set_store e key value w)) as [rest Hrest].
  exists rest. apply events_of_app.
  by rewrite Hrest, Set_store_trace, <- app_assoc.
Qed.

Lemma Set_deleted_events e key value w :
  deleted (kv w) key = true →
  events_of w (Set_ e key value w) = [EvDeletedStore key false] ∧
  wal_log (Set_ e key value w) = wal_log w.
Proof.
  intros Hdel. unfold Set_. rewrite Hdel. split; [|done].
  by apply events_of_app.
Qed.

(** The three ways [Delete] can go. *)
Lemma Delete_events e key w :
  let evs := events_of w (Delete e key w).2 in
  match data (kv w) !! key, Get key w with
  | Some value, _ =>
      evs = [EvWalWrite (WalRecord "delete" key value)
               (is_open (wal (kv w)) && wal_write_ok e);
             EvWalSync (is_open (wal (kv w)) && wal_sync_ok e);
             EvDataDelete key]
  | None, (value, true) =>
      evs = [EvWalWrite (WalRecord "delete" key value)
               (is_open (wal (kv w)) && wal_write_ok e);
             EvWalSync (is_open (wal (kv w)) && wal_sync_ok e);
             EvDeletedStore key true]
  | None, (_, false) => evs = []
  end.
Proof.
  cbv zeta. unfold Delete. destruct (data (kv w) !! key) as [value|].
  - apply events_of_app. cbn [snd]. unfold delete_data.
    assignments. by rewrite writeToWAL_trace, <- app_assoc.
  - destruct (Get key w) as [value []]; apply events_of_app; cbn [snd].
    + assignments.
      by rewrite writeToWAL_trace, <- app_assoc.
    + by rewrite app_nil_r.
Qed.
End traces.

Section trace_soundness.
Implicit Types (w : World) (e : env) (r : request) (key value : string).

Lemma explained_refl w : explained w w.
Proof. exists []. by rewrite app_nil_r. Qed.

Lemma explained_trans w1 w2 w3 :
  explained w1 w2 → explained w2 w3 → explained w1 w3.
Proof.
  intros (evs1 & Ht1 & Ho1) (evs2 & Ht2 & Ho2). exists (evs1 ++ evs2).
  by rewrite Ht2, Ht1, Ho2, Ho1, foldl_app, app_assoc.
Qed.

Lemma store_data_explained key value w : explained w (store_data key value w).
Proof. by exists [EvDataStore key value]. Qed.

Lemma delete_data_explained key w : explained w (delete_data key w).
Proof. by exists [EvDataDelete key]. Qed.

Lemma store_deleted_explained key flag w :
  explained w (store_deleted key flag w).
Proof. by exists [EvDeletedStore key flag]. Qed.

Lemma reset_data_explained w : explained w (reset_data w).
Proof. by exists [EvDataReset]. Qed.

Lemma reset_deleted_explained w : explained w (reset_deleted w).
Proof. by exists [EvDeletedReset]. Qed.

Lemma writeToWAL_explained e entry w : explained w (writeToWAL e entry w).
Proof.
  eexists. split; [apply writeToWAL_trace|].
  unfold observed. rewrite writeToWAL_kv, writeToWAL_wal_log.
  by destruct (_ && wal_write_ok e).
Qed.

Lemma update_key_lengths_explained key w :
  explained w (update_key_lengths key w).
Proof.
  destruct (update_key_lengths_frame key w) as (Hd & Hm & _ & Hl & _ & Ht).
  exists []. unfold observed. by rewrite Hd, Hm, Hl, Ht, app_nil_r.
Qed.

Lemma WriteSSTable_explained e filename w :
  explained w (WriteSSTable e filename w).2.
Proof.
  eexists. split; [apply WriteSSTable_trace|].
  unfold observed. by rewrite WriteSSTable_kv, WriteSSTable_wal_log.
Qed.

Lemma ClearWAL_explained e w : explained w (ClearWAL e w).2.
Proof.
  unfold ClearWAL. destruct (wal (kv w)); [|apply explained_refl].
  destruct (clear_fault e) as [[]|]; cbn [snd].
  - exists []. by rewrite app_nil_r.
  - exists []. by rewrite app_nil_r.
  - by exists [EvWalTruncate].
  - by exists [EvWalTruncate].
Qed.

Lemma Set_flush_explained e w : explained w (Set_flush e w).
Proof.
  rewrite Set_flush_unfold. case_bool_decide; [|apply explained_refl].
  cbv zeta. destruct (WriteSSTable e (sstable_name e) w).1;
    [apply WriteSSTable_explained|].
  eapply explained_trans; [apply WriteSSTable_explained|].
  eapply explained_trans; [apply reset_data_explained|].
  eapply explained_trans; [apply reset_deleted_explained|].
  apply ClearWAL_explained.
Qed.

Lemma Set_explained e key value w : explained w (Set_ e key value w).
Proof.
  unfold Set_. destruct (deleted (kv w) key).
  - apply store_deleted_explained.
  - eapply explained_trans; [|apply Set_flush_explained]. unfold Set_store.
    eapply explained_trans; [apply update_key_lengths_explained|].
    eapply explained_trans; [apply writeToWAL_explained|].
    apply store_data_explained.
Qed.

Lemma Delete_explained e key w : explained w (Delete e key w).2.
Proof.
  unfold Delete. destruct (data (kv w) !! key) as [value|]; cbn [snd].
  - eapply explained_trans; [apply writeToWAL_explained|].
    apply delete_data_explained.
  - destruct (Get key w) as [value []]; cbn [snd]; [|apply explained_refl].
    eapply explained_trans; [apply writeToWAL_explained|].
    apply store_deleted_explained.
Qed.

(** The two maps and the log change only by the events of the trace. *)
Lemma serve_explained w r :
  observed (serve w r) =
    foldl event_effect (observed w) (events_of w (serve w r)).
Proof.
  assert (explained w (serve w r)) as (evs & Ht & Ho).
  { destruct r; simpl;
      auto using explained_refl, Set_explained, Delete_explained. }
  by rewrite (events_of_app _ _ _ Ht).
Qed.
End trace_soundness.

(** X1.  The log comes first on every path but one.  With the log open and
    its write and sync succeeding, every request other than a [Set] of a key
    that is marked as deleted either assigns neither map or starts with the
    write and the sync of its own record, before any assignment to [kv.data]
    or [kv.DeletedKeys]. A [Set] of a key that is marked as deleted assigns
    the flag and writes nothing to the log. *)
Lemma record_logged_before_maps_change w r e :
  request_env r = Some e →
  wal (kv w) = Open →
  wal_io_ok e →
  (¬ sets_deleted_key w r →
     logged_before_mutation r (events_of w (serve w r))) ∧
  (sets_deleted_key w r →
     (∃ key, events_of w (serve w r) = [EvDeletedStore key false]) ∧
     wal_log (serve w r) = wal_log w).
Proof.
  intros Henv Hopen [Hwrite Hsync].
  destruct r as [key | e' key value | e' key]; simplify_eq/=.
  - split.
    + intros Hdel. apply not_true_is_false in Hdel.
      destruct (Set_events e key value w Hdel) as [rest Hevs].
      right. eexists _, _. split; [|rewrite Hevs, Hopen, Hwrite, Hsync; done].
      done.
    + intros Hdel. destruct (Set_deleted_events e key value w Hdel). eauto.
  - split; [intros _|done].
    pose proof (Delete_events e key w) as Hevs. cbv zeta in Hevs.
    rewrite Hopen, Hwrite, Hsync in Hevs.
    destruct (data (kv w) !! key) as [value|].
    { right. eexists _, _. split; [|apply Hevs]. done. }
    destruct (Get key w) as [value []].
    { right. eexists _, _. split; [|apply Hevs]. done. }
    left. rewrite Hevs. by intros ev ?%elem_of_nil.
Qed.

Lemma record_logged_before_maps_change_witness :
  request_env (ReqDelete (calm 1) "k0") = Some (calm 1) ∧
  wal (kv after_first_flush) = Open ∧
  wal_io_ok (calm 1) ∧
  (¬ sets_deleted_key after_first_flush (ReqDelete (calm 1) "k0") →
     logged_before_mutation (ReqDelete (calm 1) "k0")
       (events_of after_first_flush
          (serve after_first_flush (ReqDelete (calm 1) "k0")))) ∧
  (sets_deleted_key after_first_flush (ReqDelete (calm 1) "k0") →
     (∃ key, events_of after_first_flush
               (serve after_first_flush (ReqDelete (calm 1) "k0"))
             = [EvDeletedStore key false]) ∧
     wal_log (serve after_first_flush (ReqDelete (calm 1) "k0"))
       = wal_log after_first_flush).
Proof.
  assert (wal (kv after_first_flush) = Open) as Hopen
    by (vm_compute; reflexivity).
  assert (wal_io_ok (calm 1)) as Hio by (split; reflexivity).
  split; [reflexivity|]. split; [exact Hopen|]. split; [exact Hio|].
  exact (record_logged_before_maps_change after_first_flush
           (ReqDelete (calm 1) "k0") (calm 1) eq_refl Hopen Hio).
Defined.

(** C6, evaluated on the path that returns early.  [k0] was flushed and
    then deleted, so it is marked as deleted; the log is open and its system
    calls succeed.  [Set("k0", "x")] changes the mark of [k0], which is an
    assignment to [kv.DeletedKeys], and returns without writing a record:
    the log is as before and no write or sync precedes the assignment. *)
Theorem Set_on_deleted_key_is_not_logged :
  let w := after_delete in
  let r := ReqSet (calm 1) "k0" "x" in
  wal (kv w) = Open ∧ wal_io_ok (calm 1) ∧
  deleted (kv w) "k0" = true ∧
  deleted (kv (serve w r)) "k0" = false ∧
  wal_log (serve w r) = wal_log w ∧
  ¬ logged_before_mutation r (events_of w (serve w r)).
Proof.
  cbv zeta.
  assert (events_of after_delete (serve after_delete (ReqSet (calm 1) "k0" "x"))
          = [EvDeletedStore "k0" false]) as -> by (vm_compute; reflexivity).
  split_and!; try (vm_compute; reflexivity).
  - split; reflexivity.
  - intros [Hnone | (entry & rest & _ & Heq)]; [|discriminate].
    specialize (Hnone _ (list_elem_of_here _ _)). discriminate.
Qed.

(* ===================================================================== *)
(** * What a flush writes *)
(* ===================================================================== *)

Section table_contents.
Implicit Types (s : KeyValueStore) (w : World) (e : env) (r : request).
Implicit Types (key value : string).

(** The keys of a table are those of the two maps. *)
Lemma elem_of_sst_keys s key :
  key ∈ sst_keys s ↔
  is_Some (data s !! key) ∨ is_Some (DeletedKeys s !! key).
Proof.
  unfold sst_keys. rewrite merge_sort_Permutation, elem_of_app.
  rewrite !list_elem_of_fmap.
  split.
  - intros [([k v] & -> & Hin) | ([k v] & -> & Hin)];
      apply elem_of_map_to_list in Hin; eauto.
  - intros [[v Hv] | [v Hv]]; [left | right]; exists (key, v);
      by rewrite elem_of_map_to_list.
Qed.

(** They are written in ascending order. *)
Lemma sst_keys_sorted s : Sorted String.le (sst_keys s).
Proof. apply Sorted_merge_sort; apply _. Qed.

(** The order in which the maps are ranged over does not matter. *)
Lemma sst_keys_order_independent s (l1 l2 : list string) :
  l1 ≡ₚ (map_to_list (data s)).*1 →
  l2 ≡ₚ (map_to_list (DeletedKeys s)).*1 →
  merge_sort String.le (l1 ++ l2) = sst_keys s.
Proof.
  intros H1 H2. unfold sst_keys.
  apply (Sorted_unique String.le); try apply Sorted_merge_sort; try apply _.
  by rewrite !merge_sort_Permutation, H1, H2.
Qed.

Lemma elem_of_sst_entries s en :
  en ∈ sst_entries s ↔ ∃ key, key ∈ sst_keys s ∧ en = entry_of s key.
Proof.
  unfold sst_entries. rewrite list_elem_of_fmap.
  split; intros (key & ? & ?); by exists key.
Qed.


Lemma elem_of_create_file f files : f ∈ create_file f files.
Proof.
  unfold create_file. destruct (existsb _ files) eqn:E.
  - apply existsb_exists in E as (g & Hg & Heq).
    apply bool_decide_eq_true in Heq. apply list_elem_of_In in Hg.
    apply list_elem_of_fmap. exists g. split; [|done].
    by rewrite bool_decide_eq_true_2.
  - apply elem_of_app. right. apply list_elem_of_here.
Qed.

Lemma Delete_flushes e key w :
  flushes (trace (Delete e key w).2) = flushes (trace w).
Proof.
  unfold Delete. destruct (data (kv w) !! key) as [value|]; cbn [snd].
  - assignments.
    rewrite writeToWAL_trace, !flushes_app. unfold flushes. simpl. lia.
  - destruct (Get key w) as [value []]; cbn [snd]; [|done].
    assignments.
    rewrite writeToWAL_trace, !flushes_app. unfold flushes. simpl. lia.
Qed.


Lemma serve_flushes_mono w r :
  (flushes (trace w) ≤ flushes (trace (serve w r)))%nat.
Proof.
  destruct r as [key | e key value | e key]; simpl; [done|..].
  - rewrite Set_flushes. lia.
  - by rewrite Delete_flushes.
Qed.

Lemma run_flushes_mono rs w :
  (flushes (trace w) ≤ flushes (trace (run rs w)))%nat.
Proof.
  revert w. induction rs as [|r rs IH]; intros w; simpl; [done|].
  etrans; [apply (serve_flushes_mono w r)|apply IH].
Qed.



(** The table a successful flush leaves behind. *)
Lemma Set_flush_table e w :
  (10 ≤ size (data (kv w)))%nat → sst_fault e = None →
  mkSst (sstable_name e) (mtime e) (str_concat (sst_chunks (kv w)))
    ∈ sstables (Set_flush e w).
Proof.
  intros Hsz Hfault. rewrite Set_flush_unfold.
  rewrite bool_decide_eq_true_2 by done. cbv zeta.
  pose proof (WriteSSTable_no_fault e (sstable_name e) w Hfault) as Hok.
  rewrite Hok.
  destruct (ClearWAL_frame e
    (reset_deleted (reset_data (WriteSSTable e (sstable_name e) w).2)))
    as (_ & _ & -> & _).
  assignments.
  rewrite WriteSSTable_ok by done. apply elem_of_create_file.
Qed.
End table_contents.




(* ===================================================================== *)
(** * Reading a table back *)
(* ===================================================================== *)

Section read_after_write.
Implicit Types (s : KeyValueStore) (en : sst_entry) (key tail : string).

Lemma len_nonneg key : 0 ≤ len key.
Proof. unfold len. lia. Qed.

Lemma scan_entries_written entries key tail :
  Forall entry_fits entries →
  scan_entries (length entries) key
    (str_concat (concat (entry_chunks <$> entries)) +:+ tail)
  = find_entry key entries.
Proof.
  induction 1 as [|en entries (Hm & Hk & Hv) _ IH]; [done|].
  cbn [length fmap list_fmap concat scan_entries find_entry].
  rewrite str_concat_app. unfold entry_chunks at 1. cbn [str_concat].
  rewrite !str_app_assoc, str_app_nil_l.
  rewrite read_uint_bytes. cbn iota beta.
  rewrite read_uint_bytes. cbn iota beta.
  rewrite read_uint_bytes. cbn iota beta.
  pose proof (len_nonneg (entry_key en)).
  pose proof (len_nonneg (entry_value en)).
  unfold uint16, uint32.
  change (256 ^ Z.of_nat 2) with (2 ^ 16).
  change (256 ^ Z.of_nat 4) with (2 ^ 32).
  rewrite !Z.mod_mod by lia.
  rewrite (Z.mod_small (operationMarker en)) by lia.
  rewrite (Z.mod_small (len (entry_key en))) by lia.
  rewrite (Z.mod_small (len (entry_value en))) by lia.
  unfold len. rewrite !Nat2Z.id.
  rewrite file_read_app. cbn iota beta.
  rewrite file_read_app. cbn iota beta.
  by rewrite IH.
Qed.

Lemma find_entry_entry_of s key keys :
  find_entry key (entry_of s <$> keys) =
    if bool_decide (key ∈ keys) then
      if deleted s key then ("DELETED", true) else (value_of s key, true)
    else not_found.
Proof.
  induction keys as [|key' keys IH]; [done|].
  cbn [fmap list_fmap find_entry entry_of
       entry_key operationMarker entry_value].
  destruct (decide (key' = key)) as [->|Hne].
  - rewrite !bool_decide_eq_true_2; [|apply list_elem_of_here|done].
    by destruct (deleted s key).
  - rewrite (bool_decide_eq_false_2 (key' = key)) by done.
    rewrite IH. apply (f_equal (λ b : bool, if b then _ else _)).
    apply bool_decide_ext. rewrite elem_of_cons.
    split; [by right | by intros [?|?]].
Qed.

Lemma sst_keys_length s :
  length (sst_keys s) = (size (data s) + size (DeletedKeys s))%nat.
Proof.
  unfold sst_keys.
  by rewrite merge_sort_Permutation, length_app, !length_fmap,
    !length_map_to_list.
Qed.

Lemma table_fits_entries s : table_fits s → Forall entry_fits (sst_entries s).
Proof.
  intros (_ & Hdata & Hdel). apply Forall_forall. intros en Hen.
  apply elem_of_sst_entries in Hen as (key & Hkey & ->).
  apply elem_of_sst_keys in Hkey.
  unfold entry_fits, entry_of, value_of. simpl.
  split; [destruct (deleted s key); lia|].
  destruct (data s !! key) as [value|] eqn:Hv.
  - by apply Hdata.
  - destruct Hkey as [[? ?]|[flag Hflag]]; [done|].
    split; [by eapply Hdel|done].
Qed.

(** Reading back a table that was written in full: the key is found if
    one of the two maps had it, and then its mark decides. *)
Lemma SearchSSTFile_written s key :
  table_fits s →
  SearchSSTFile key (str_concat (sst_chunks s)) =
    if bool_decide (is_Some (data s !! key) ∨ is_Some (DeletedKeys s !! key))
    then if deleted s key then ("DELETED", true) else (value_of s key, true)
    else not_found.
Proof.
  intros Hfits. pose proof (table_fits_entries s Hfits) as Hentries.
  destruct Hfits as (Hcount & _).
  unfold SearchSSTFile, sst_chunks, header_chunks.
  rewrite str_concat_app. cbn [str_concat].
  rewrite !str_app_assoc, str_app_nil_l.
  change 4%nat with (String.length "SSTB") at 1.
  rewrite file_read_app. cbn iota beta.
  rewrite bool_decide_eq_true_2 by done.
  rewrite read_uint_bytes. cbn iota beta.
  rewrite read_uint_bytes. cbn iota beta.
  rewrite read_uint_bytes. cbn iota beta.
  unfold uint32. change (256 ^ Z.of_nat 4) with (2 ^ 32).
  rewrite Z.mod_mod by lia. rewrite sst_keys_length.
  rewrite Z.mod_small by lia. rewrite Nat2Z.id, <- sst_keys_length.
  replace (length (sst_keys s)) with (length (sst_entries s))
    by (unfold sst_entries; apply length_fmap).
  rewrite <- (str_app_nil_r (str_concat _)).
  rewrite scan_entries_written by done.
  unfold sst_entries. rewrite find_entry_entry_of.
  apply (f_equal (λ b : bool, if b then _ else _)).
  apply bool_decide_ext, elem_of_sst_keys.
Qed.
End read_after_write.

(* ===================================================================== *)
(** * Get after a flush *)
(* ===================================================================== *)

Section first_flush.
Implicit Types (w : World) (e : env) (key value : string).

Lemma by_modtime_singleton f : by_modtime [f] = [f].
Proof. reflexivity. Qed.

(** X2.  [Set] then [Get] returns the value also when the [Set] is the first
    request to reach the threshold, whether its flush fails or succeeds, as
    long as no length wraps around in the table: after a successful flush
    the value is read back from the table. *)
Lemma Set_then_Get_up_to_first_flush recover_open_ok log rs w0 e key value :
  boot recover_open_ok log [] = Some w0 →
  let w := run rs w0 in
  sstables w = [] →
  table_fits (kv (Set_store e key value w)) →
  Get key (Set_ e key value w) = (value, true).
Proof.
  intros Hboot w Hnil Hfits.
  assert (no_table_no_mark w) as Hinv
    by eauto using run_no_table_no_mark, boot_no_table_no_mark.
  pose proof (Hinv Hnil key) as Hdel.
  unfold Set_. rewrite Hdel. set (at_flush := Set_store e key value w) in *.
  assert (deleted (kv at_flush) key = false) as Hdel'.
  { unfold deleted, at_flush. by rewrite Set_store_DeletedKeys. }
  assert (data (kv at_flush) !! key = Some value) as Hdata.
  { unfold at_flush. by rewrite Set_store_data, lookup_insert_eq. }
  rewrite Set_flush_unfold. case_bool_decide as Hsz; cbv zeta.
  2: { unfold Get. by rewrite Hdel', Hdata. }
  destruct (WriteSSTable e (sstable_name e) at_flush).1 eqn:Hok.
  { unfold Get, deleted. rewrite WriteSSTable_kv.
    fold (deleted (kv at_flush) key). by rewrite Hdel', Hdata. }
  set (w1 := reset_deleted
               (reset_data (WriteSSTable e (sstable_name e) at_flush).2)).
  destruct (ClearWAL_frame e w1) as (Hd & Hm & Hs & _).
  unfold Get, deleted, SearchSSTFiles. rewrite Hd, Hm, Hs.
  unfold w1, reset_deleted, reset_data.
  assignments.
  rewrite !lookup_empty. cbn [default].
  rewrite WriteSSTable_ok by done.
  unfold at_flush at 2. rewrite Set_store_sstables, Hnil.
  cbn [create_file existsb app]. rewrite by_modtime_singleton.
  cbn [search_files contents].
  rewrite SearchSSTFile_written by done.
  rewrite Hdel'. unfold value_of. rewrite Hdata.
  rewrite bool_decide_eq_true_2 by (left; by eexists). done.
Qed.
End first_flush.

Section newest_first.
Implicit Types (w : World) (e : env) (key value : string).
Implicit Types (f g : sst_file) (files : list sst_file).

#[local] Instance newer_or_same_trans : Transitive newer_or_same.
Proof. intros f g h. unfold newer_or_same. lia. Qed.

#[local] Instance newer_or_same_total : Total newer_or_same.
Proof. intros f g. unfold newer_or_same. lia. Qed.

(** A file that is strictly newer than all others is searched first. *)
Lemma by_modtime_head f files :
  f ∈ files →
  (∀ g, g ∈ files → g = f ∨ modtime g < modtime f) →
  ∃ rest, by_modtime files = f :: rest.
Proof.
  intros Hf Hnewest. unfold by_modtime.
  pose proof (merge_sort_Permutation newer_or_same files) as Hperm.
  pose proof (StronglySorted_merge_sort newer_or_same files) as Hsorted.
  destruct (merge_sort newer_or_same files) as [|h rest].
  { rewrite <- Hperm in Hf. by apply elem_of_nil in Hf. }
  exists rest. f_equal.
  assert (h ∈ files) as Hh by (rewrite <- Hperm; apply list_elem_of_here).
  destruct (Hnewest h Hh) as [->|Hlt]; [done|].
  rewrite <- Hperm in Hf. apply elem_of_cons in Hf as [->|Hf]; [done|].
  apply StronglySorted_inv in Hsorted as [_ Hall].
  rewrite Forall_forall in Hall. specialize (Hall f Hf).
  unfold newer_or_same in Hall. lia.
Qed.

Lemma elem_of_create_file_inv f g files :
  g ∈ create_file f files → g = f ∨ g ∈ files.
Proof.
  unfold create_file. destruct (existsb _ files).
  - intros (h & Hg & Hh)%list_elem_of_fmap. subst g. case_bool_decide; auto.
  - intros [?|Hg%list_elem_of_singleton]%elem_of_app; auto.
Qed.

(** [Get] after a successful flush, for a key that one of the two maps held
    when the flush started: when the modification time of the new table is
    later than those of the tables that exist, the new table is searched
    first and decides; a key that was marked as deleted is reported
    as found, with value "DELETED". *)
Lemma Get_after_flush e key' value' w key :
  deleted (kv w) key' = false →
  let at_flush := Set_store e key' value' w in
  (10 ≤ size (data (kv at_flush)))%nat →
  sst_fault e = None →
  table_fits (kv at_flush) →
  (∀ g, g ∈ sstables w → modtime g < mtime e) →
  is_Some (data (kv at_flush) !! key) ∨
    is_Some (DeletedKeys (kv at_flush) !! key) →
  Get key (Set_ e key' value' w) =
    if deleted (kv at_flush) key then ("DELETED", true)
    else (value_of (kv at_flush) key, true).
Proof.
  intros Hdel' at_flush Hsz Hfault Hfits Hnew Hkey.
  unfold Set_. rewrite Hdel'. fold at_flush.
  rewrite Set_flush_unfold, bool_decide_eq_true_2 by done. cbv zeta.
  pose proof (WriteSSTable_no_fault e (sstable_name e) at_flush Hfault) as Hok.
  rewrite Hok.
  set (w1 := reset_deleted
               (reset_data (WriteSSTable e (sstable_name e) at_flush).2)).
  destruct (ClearWAL_frame e w1) as (Hd & Hm & Hs & _).
  unfold Get at 1, deleted at 1, SearchSSTFiles. rewrite Hd, Hm, Hs.
  unfold w1, reset_deleted, reset_data.
  assignments.
  rewrite !lookup_empty. cbn [default].
  rewrite WriteSSTable_ok by done.
  set (f := mkSst (sstable_name e) (mtime e)
              (str_concat (sst_chunks (kv at_flush)))).
  destruct (by_modtime_head f (create_file f (sstables at_flush))) as [rest ->].
  { apply elem_of_create_file. }
  { intros g [->|Hg]%elem_of_create_file_inv; [by left|right].
    unfold at_flush in Hg. rewrite Set_store_sstables in Hg.
    by apply Hnew. }
  cbn [search_files]. unfold f at 1. cbn [contents].
  rewrite SearchSSTFile_written by done.
  rewrite bool_decide_eq_true_2 by done.
  by destruct (deleted (kv at_flush) key).
Qed.
(** A mark that is flushed shadows the older tables, but as a value. *)
Corollary Get_after_flush_of_mark e key' value' w key :
  deleted (kv w) key' = false →
  let at_flush := Set_store e key' value' w in
  (10 ≤ size (data (kv at_flush)))%nat →
  sst_fault e = None →
  table_fits (kv at_flush) →
  (∀ g, g ∈ sstables w → modtime g < mtime e) →
  deleted (kv at_flush) key = true →
  Get key (Set_ e key' value' w) = ("DELETED", true).
Proof.
  intros Hdel' at_flush Hsz Hfault Hfits Hnew Hdel.
  assert (is_Some (DeletedKeys (kv at_flush) !! key)) as Hkey.
  { unfold deleted in Hdel. by destruct (DeletedKeys (kv at_flush) !! key). }
  rewrite (Get_after_flush e key' value' w key) by auto.
  fold at_flush. by rewrite Hdel.
Qed.

(** A cleared mark that is flushed without a live value shadows the older
    tables with an empty value. *)
Corollary Get_after_flush_of_cleared_mark e key' value' w key :
  deleted (kv w) key' = false →
  let at_flush := Set_store e key' value' w in
  (10 ≤ size (data (kv at_flush)))%nat →
  sst_fault e = None →
  table_fits (kv at_flush) →
  (∀ g, g ∈ sstables w → modtime g < mtime e) →
  DeletedKeys (kv at_flush) !! key = Some false →
  data (kv at_flush) !! key = None →
  Get key (Set_ e key' value' w) = ("", true).
Proof.
  intros Hdel' at_flush Hsz Hfault Hfits Hnew Hmark Hdata.
  assert (is_Some (DeletedKeys (kv at_flush) !! key)) as Hkey by by eexists.
  rewrite (Get_after_flush e key' value' w key) by auto.
  fold at_flush. unfold deleted, value_of. by rewrite Hmark, Hdata.
Qed.
End newest_first.

(* ===================================================================== *)
(** * Marks in the tables, keys in both maps *)
(* ===================================================================== *)

Section shadowing.
Implicit Types (s : KeyValueStore) (w : World) (key : string).

(** X3.  A key that is absent from the memtable is looked up in the tables,
    newest first, and the first table that has an entry for it decides; when
    that entry carries the deletion marker the result is the value
    "DELETED", reported as found. *)
Lemma Get_stops_at_newest_match key w newer f older value :
  data (kv w) !! key = None →
  deleted (kv w) key = false →
  by_modtime (sstables w) = newer ++ f :: older →
  (∀ g, g ∈ newer → (SearchSSTFile key (contents g)).2 = false) →
  SearchSSTFile key (contents f) = (value, true) →
  Get key w = (value, true).
Proof.
  intros Hdata Hdel Hfiles Hnewer Hf. unfold Get, SearchSSTFiles.
  rewrite Hdel, Hdata, Hfiles. by apply search_files_stops.
Qed.

(** The mark of a key is written to the table with marker 1 and read
    back as "DELETED", found. *)
Lemma flushed_mark_is_read_as_found s key :
  table_fits s → deleted s key = true →
  SearchSSTFile key (str_concat (sst_chunks s)) = ("DELETED", true).
Proof.
  intros Hfits Hdel. rewrite SearchSSTFile_written by done.
  rewrite Hdel, bool_decide_eq_true_2; [done|].
  right. unfold deleted in Hdel. by destruct (DeletedKeys s !! key).
Qed.

(** A key whose mark was cleared is read back as found with an empty
    value when it has no live value. *)
Lemma flushed_cleared_mark_is_read_as_empty s key :
  table_fits s →
  DeletedKeys s !! key = Some false → data s !! key = None →
  SearchSSTFile key (str_concat (sst_chunks s)) = ("", true).
Proof.
  intros Hfits Hdel Hdata. rewrite SearchSSTFile_written by done.
  unfold deleted, value_of. rewrite Hdel, Hdata, bool_decide_eq_true_2; [done|].
  right. by eexists.
Qed.

Lemma sst_entries_keys s : entry_key <$> sst_entries s = sst_keys s.
Proof.
  unfold sst_entries. rewrite <- list_fmap_compose.
  induction (sst_keys s) as [|key keys IH]; [done|]. simpl. by f_equal.
Qed.

End shadowing.

(* ===================================================================== *)
(** * Ten distinct keys and their table *)
(* ===================================================================== *)

Section ten_puts.
Implicit Types (w : World) (e : env) (key value : string).
Implicit Types (l : list (env * string * string)).


Lemma entries_size (entries : list sst_entry) :
  String.length (str_concat (concat (entry_chunks <$> entries))) =
    sum_list ((λ en, 10 + String.length (entry_key en)
                        + String.length (entry_value en))%nat <$> entries).
Proof.
  induction entries as [|en entries IH]; [done|].
  cbn [fmap list_fmap concat sum_list]. rewrite str_concat_app.
  rewrite str_app_length, IH. unfold entry_chunks. cbn [str_concat].
  rewrite !str_app_length, !le_bytes_length. simpl. lia.
Qed.

End ten_puts.



(** C1, evaluated on the scenario of the claim.  [k0] and nine other keys
    are set and flushed, [k0] is deleted, ten other keys are set and
    flushed, so that the newest table holds the deletion marker of [k0] and
    the older one its value.  [k0] is absent from the memtable;
    [Get("k0")] stops at the newest table, but its result is
    [("DELETED", true)], not "not found".  [Get_after_flush_of_mark] shows
    the same for every key that is marked when a flush succeeds. *)
Theorem Get_reports_key_deleted_in_newest_table_as_found :
  let w := after_second_flush in
  data (kv w) !! "k0" = None ∧
  deleted (kv w) "k0" = false ∧
  (∃ newest oldest,
      by_modtime (sstables w) = [newest; oldest] ∧
      SearchSSTFile "k0" (contents newest) = ("DELETED", true) ∧
      SearchSSTFile "k0" (contents oldest) = ("vk0", true)) ∧
  Get "k0" w = ("DELETED", true).
Proof.
  cbv zeta.
  split; [vm_compute; reflexivity|].
  split; [vm_compute; reflexivity|].
  split; [|vm_compute; reflexivity].
  eexists _, _. split; [vm_compute; reflexivity|].
  split; vm_compute; reflexivity.
Qed.

(** C5, evaluated on a run that leaves a key in both maps.  After the
    first flush [k0] is deleted, then set twice: the first [Set] clears the
    mark, the second stores a value.  At the next flush [k0] is in
    [kv.data] and in [kv.DeletedKeys], and the table gets two entries for
    it.  The keys of a table are the keys of the two maps
    ([elem_of_sst_keys]) in ascending order ([sst_keys_sorted]); they are
    free of duplicates exactly when no key is in both maps
    ([sst_keys_NoDup]). *)
Theorem flush_writes_key_of_both_maps_twice :
  let w := before_duplicate_flush in
  let at_flush := Set_store (calm 2) "a8" "va8" w in
  data (kv at_flush) !! "k0" = Some "y" ∧
  DeletedKeys (kv at_flush) !! "k0" = Some false ∧
  size (data (kv at_flush)) = 10%nat ∧
  sst_keys (kv at_flush) =
    ["a0"; "a1"; "a2"; "a3"; "a4"; "a5"; "a6"; "a7"; "a8"; "k0"; "k0"] ∧
  sst_entries (kv at_flush) !! 9%nat = Some (mkEntry 0 "k0" "y") ∧
  sst_entries (kv at_flush) !! 10%nat = Some (mkEntry 0 "k0" "y") ∧
  ¬ NoDup (entry_key <$> sst_entries (kv at_flush)) ∧
  mkSst "sstable_2.sst" 2 (str_concat (sst_chunks (kv at_flush)))
    ∈ sstables (Set_ (calm 2) "a8" "va8" w).
Proof.
  cbv zeta.
  assert (sst_keys (kv (Set_store (calm 2) "a8" "va8" before_duplicate_flush)) =
    ["a0"; "a1"; "a2"; "a3"; "a4"; "a5"; "a6"; "a7"; "a8"; "k0"; "k0"]) as Hkeys
    by (vm_compute; reflexivity).
  split; [vm_compute; reflexivity|].
  split; [vm_compute; reflexivity|].
  split; [vm_compute; reflexivity|].
  split; [exact Hkeys|].
  split; [vm_compute; reflexivity|].
  split; [vm_compute; reflexivity|].
  split.
  - rewrite sst_entries_keys, Hkeys. intros Hnd.
    apply (bool_decide_pack _) in Hnd. vm_compute in Hnd. exact Hnd.
  - unfold Set_.
    assert (deleted (kv before_duplicate_flush) "a8" = false) as ->
      by (vm_compute; reflexivity).
    apply (Set_flush_table (calm 2)); [|reflexivity].
    assert (size (data (kv (Set_store (calm 2) "a8" "va8"
              before_duplicate_flush))) = 10%nat) as ->
      by (vm_compute; reflexivity).
    lia.
Qed.

(* ===================================================================== *)
(** * Checking the hypotheses on concrete stores *)
(* ===================================================================== *)

Section concrete_stores.
Implicit Types (s : KeyValueStore) (w : World).

(** [table_fits] from a check of the entries of the two maps. *)
Lemma table_fits_check s :
  Z.of_nat (size (data s) + size (DeletedKeys s)) < 2 ^ 32 →
  Forall (λ p, len p.1 < 2 ^ 32 ∧ len p.2 < 2 ^ 32) (map_to_list (data s)) →
  Forall (λ p, len p.1 < 2 ^ 32) (map_to_list (DeletedKeys s)) →
  table_fits s.
Proof.
  intros Hcount Hdata Hdel.
  rewrite Forall_forall in Hdata. rewrite Forall_forall in Hdel.
  split_and!; [done|..].
  - intros key value Hkey. by apply (Hdata (key, value)), elem_of_map_to_list.
  - intros key flag Hkey. by apply (Hdel (key, flag)), elem_of_map_to_list.
Qed.

Lemma no_marks_live_or_marked w : DeletedKeys (kv w) = ∅ → live_or_marked w.
Proof. intros Hnone key _. by apply deleted_empty. Qed.

Lemma tables_older_check w t :
  Forall (λ g, modtime g < t) (sstables w) →
  ∀ g, g ∈ sstables w → modtime g < t.
Proof. intros Hall. by apply Forall_forall. Qed.
End concrete_stores.

Ltac by_evaluation :=
  match goal with
  | |- ?P => apply (bool_decide_unpack P); vm_compute; exact I
  end.

Ltac check_table_fits :=
  apply table_fits_check; [vm_compute; reflexivity | by_evaluation..].

(* ===================================================================== *)
(** * The log mirrors the live mapping *)
(* ===================================================================== *)

Section log_mirror.
Implicit Types (w : World) (e : env) (r : request) (key value : string).

Lemma foldl_raw_apply_snoc d entries entry :
  foldl raw_apply d (entries ++ [entry]) =
    raw_apply (foldl raw_apply d entries) entry.
Proof. by rewrite foldl_app. Qed.

Lemma writeToWAL_wal e entry w : wal (kv (writeToWAL e entry w)) = wal (kv w).
Proof. by rewrite writeToWAL_kv. Qed.

(** The threshold check keeps the log in step with the live mapping: a
    failed table write changes neither, a successful one empties both. *)
Lemma Set_flush_log_mirrors_data e w :
  clear_fault e = None → log_mirrors_data w → log_mirrors_data (Set_flush e w).
Proof.
  intros Hclear (Hrec & Hopen & Hlog). rewrite Set_flush_unfold.
  case_bool_decide; [|done]. cbv zeta.
  destruct (WriteSSTable e (sstable_name e) w).1 eqn:Herr.
  - unfold log_mirrors_data.
    by rewrite WriteSSTable_kv, WriteSSTable_wal_log.
  - set (w1 := reset_deleted
                 (reset_data (WriteSSTable e (sstable_name e) w).2)).
    assert (wal (kv w1) = Open) as Hopen1.
    { unfold w1. assignments. by rewrite WriteSSTable_kv. }
    destruct (ClearWAL_frame e w1) as (Hd & _).
    destruct (ClearWAL_ok e w1 Hopen1 Hclear) as [Hl Hh].
    unfold log_mirrors_data. rewrite Hd, Hl, Hh. by split_and!.
Qed.

Lemma Set_log_mirrors_data e key value w :
  wal_write_ok e = true → clear_fault e = None →
  utf8_valid key → utf8_valid value →
  log_mirrors_data w → log_mirrors_data (Set_ e key value w).
Proof.
  intros Hwrite Hclear Hkey Hvalue Hinv. unfold Set_.
  destruct (deleted (kv w) key); [done|].
  apply Set_flush_log_mirrors_data; [done|].
  destruct Hinv as (Hrec & Hopen & Hlog). unfold log_mirrors_data.
  rewrite Set_store_wal_log, Set_store_wal, Set_store_data, Hopen, Hwrite.
  rewrite Hkey, Hvalue.
  cbn [is_open andb]. split_and!; [|done|].
  - apply Forall_app. split; [done|]. by apply Forall_singleton.
  - by rewrite foldl_raw_apply_snoc, Hlog.
Qed.

Lemma raw_apply_delete d key value :
  raw_apply d (json_entry (WalRecord "delete" key value)) =
    delete (json_string key) d.
Proof. reflexivity. Qed.

Lemma Delete_log_mirrors_data e key w :
  wal_write_ok e = true → utf8_valid key →
  log_mirrors_data w → log_mirrors_data (Delete e key w).2.
Proof.
  intros Hwrite Hvalid (Hrec & Hopen & Hlog). unfold Delete, log_mirrors_data.
  destruct (data (kv w) !! key) as [value|] eqn:Hkey; cbn [snd].
  - assignments.
    rewrite writeToWAL_wal_log, writeToWAL_kv, Hopen, Hwrite.
    cbn [is_open andb]. split_and!; [|done|].
    + apply Forall_app. split; [done|]. by apply Forall_singleton.
    + by rewrite foldl_raw_apply_snoc, Hlog, raw_apply_delete, Hvalid.
  - destruct (Get key w) as [value []]; cbn [snd]; [|done].
    assignments.
    rewrite writeToWAL_wal_log, writeToWAL_kv, Hopen, Hwrite.
    cbn [is_open andb]. split_and!; [|done|].
    + apply Forall_app. split; [done|]. by apply Forall_singleton.
    + rewrite foldl_raw_apply_snoc, Hlog, raw_apply_delete, Hvalid.
      by apply delete_id.
Qed.

Lemma serve_log_mirrors_data w r :
  log_io_ok r → logs_utf8 r →
  log_mirrors_data w → log_mirrors_data (serve w r).
Proof.
  destruct r as [key | e key value | e key]; simpl; [done|..].
  - intros [? ?] [? ?]. by apply Set_log_mirrors_data.
  - intros [? _] ?. by apply Delete_log_mirrors_data.
Qed.

Lemma run_log_mirrors_data rs w :
  Forall log_io_ok rs → Forall logs_utf8 rs →
  log_mirrors_data w → log_mirrors_data (run rs w).
Proof.
  revert w. induction rs as [|r rs IH]; intros w Hrs Hutf Hinv; simpl;
    [done|].
  apply Forall_cons in Hrs as [Hr Hrs]. apply Forall_cons in Hutf as [Hu Hutf].
  by apply IH, serve_log_mirrors_data.
Qed.

Lemma boot_data log tables w :
  boot true log tables = Some w →
  data (kv w) = foldl raw_apply ∅ (decoded log) ∧
  DeletedKeys (kv w) = ∅ ∧ wal (kv w) = Open ∧
  wal_log w = log ∧ sstables w = tables.
Proof.
  unfold boot, NewKeyValueStore, RecoverFromWAL. simpl. intros [= <-].
  match goal with |- context [replay ?l ?w0] =>
    rewrite (replay_data l w0);
    destruct (replay_frame l w0) as (-> & -> & -> & -> & _) end.
  done.
Qed.

Lemma boot_log_mirrors_data log tables w :
  boot true log tables = Some w →
  Forall (λ entry, is_record entry = true) log →
  log_mirrors_data w.
Proof.
  intros (Hd & _ & Hopen & Hl & _)%boot_data Hrec. unfold log_mirrors_data.
  rewrite Hl, Hd, Hopen. by rewrite (decoded_all_records _ Hrec).
Qed.
End log_mirror.

(** X4.  Restarting on the log a run has left reproduces its live mapping,
    when the log held only records to begin with, the writes to the log and
    the clearing of the log succeeded throughout and the keys and values of
    the requests are valid UTF-8 (other bytes do not come back from the JSON
    text of the log, see [invalid_utf8_is_not_restored]).  The tables are
    the same and the marks of deleted keys, which are not in the log, are
    gone: [Get] answers as before the restart for every key that was not
    marked. *)
Theorem restart_reproduces_live_mapping log tables rs w0 w' :
  boot true log tables = Some w0 →
  Forall (λ entry, is_record entry = true) log →
  Forall log_io_ok rs →
  Forall logs_utf8 rs →
  restart (run rs w0) = Some w' →
  data (kv w') = data (kv (run rs w0)) ∧
  DeletedKeys (kv w') = ∅ ∧
  sstables w' = sstables (run rs w0) ∧
  ∀ key, deleted (kv (run rs w0)) key = false →
         Get key w' = Get key (run rs w0).
Proof.
  intros Hboot Hrec Hrs Hutf Hboot'.
  destruct (run_log_mirrors_data rs w0 Hrs Hutf
              (boot_log_mirrors_data _ _ _ Hboot Hrec)) as (Hrec' & _ & Hlog).
  apply boot_data in Hboot' as (Hd & Hm & _ & _ & Hs).
  rewrite (decoded_all_records _ Hrec'), Hlog in Hd.
  split_and!; [done..|]. intros key Hdel.
  unfold Get, SearchSSTFiles. rewrite Hdel, Hd, Hs.
  unfold deleted. by rewrite Hm, lookup_empty.
Qed.

Lemma restart_reproduces_live_mapping_witness :
  ∃ w',
    boot true [] [] = Some fresh ∧
    Forall (λ entry, is_record entry = true) [] ∧
    Forall log_io_ok utf8_requests ∧
    Forall logs_utf8 utf8_requests ∧
    restart (run utf8_requests fresh) = Some w' ∧
    data (kv w') = data (kv (run utf8_requests fresh)) ∧
    DeletedKeys (kv w') = ∅ ∧
    sstables w' = sstables (run utf8_requests fresh) ∧
    ∀ key, deleted (kv (run utf8_requests fresh)) key = false →
           Get key w' = Get key (run utf8_requests fresh).
Proof.
  assert (Forall (λ entry, is_record entry = true) []) as H1 by constructor.
  assert (Forall log_io_ok utf8_requests) as H2
    by (repeat constructor).
  assert (Forall logs_utf8 utf8_requests) as H3
    by (repeat constructor).
  eexists. split; [reflexivity|]. split; [exact H1|]. split; [exact H2|].
  split; [exact H3|]. split; [reflexivity|].
  exact (restart_reproduces_live_mapping [] [] utf8_requests fresh _
           eq_refl H1 H2 H3 eq_refl).
Defined.

(** A byte that is not valid UTF-8 does not come back: the value 0xFF is
    logged as U+FFFD and that is what recovery stores. *)
Lemma invalid_utf8_is_not_restored :
  let w := Set_ (calm 1) "k" (String "255" "") fresh in
  data (kv w) !! "k" = Some (String "255" "") ∧
  ∃ w', restart w = Some w' ∧ data (kv w') !! "k" = Some replacement.
Proof.
  cbv zeta. split; [vm_compute; reflexivity|].
  eexists. split; [reflexivity|]. vm_compute. reflexivity.
Qed.

(* ===================================================================== *)
(** * Restarts *)
(* ===================================================================== *)

Section restarts.
Implicit Types (w : World) (e : env) (r : request) (key value : string).

Lemma decoded_stops before after :
  Forall (λ entry, is_record entry = true) before →
  decoded (before ++ WalGarbage :: after) = before.
Proof.
  induction 1 as [|entry before Hrec _ IH]; [done|]. simpl.
  by rewrite Hrec, IH.
Qed.

Lemma Set_wal_log_grows e key value w :
  flushes (trace (Set_ e key value w)) = flushes (trace w) →
  ∃ more, wal_log (Set_ e key value w) = wal_log w ++ more.
Proof.
  rewrite Set_flushes. unfold Set_. destruct (deleted (kv w) key).
  { intros _. exists []. by rewrite app_nil_r. }
  case_bool_decide as Hsz; [lia|]. intros _.
  rewrite Set_flush_below by (rewrite Set_store_data; lia).
  rewrite Set_store_wal_log. destruct (_ && _); [by eexists|].
  exists []. by rewrite app_nil_r.
Qed.

Lemma Delete_wal_log_grows e key w :
  ∃ more, wal_log (Delete e key w).2 = wal_log w ++ more.
Proof.
  assert (∀ entry, ∃ more,
            wal_log (writeToWAL e entry w) = wal_log w ++ more) as Hwrite.
  { intros entry. rewrite writeToWAL_wal_log.
    destruct (_ && _); [by eexists|]. exists []. by rewrite app_nil_r. }
  unfold Delete. destruct (data (kv w) !! key) as [value|]; cbn [snd].
  - assignments. apply Hwrite.
  - destruct (Get key w) as [value []]; cbn [snd].
    + assignments. apply Hwrite.
    + exists []. by rewrite app_nil_r.
Qed.

Lemma run_wal_log_grows rs w :
  flushes (trace (run rs w)) = flushes (trace w) →
  ∃ more, wal_log (run rs w) = wal_log w ++ more.
Proof.
  revert w. induction rs as [|r rs IH]; intros w Hfl.
  { exists []. by rewrite app_nil_r. }
  change (run (r :: rs) w) with (run rs (serve w r)) in *.
  pose proof (serve_flushes_mono w r) as Hstep.
  pose proof (run_flushes_mono rs (serve w r)) as Hrest.
  destruct (IH (serve w r)) as [more Hmore]; [lia|].
  assert (flushes (trace (serve w r)) = flushes (trace w)) as Heq by lia.
  assert (∃ more', wal_log (serve w r) = wal_log w ++ more') as [more' Hmore'].
  { destruct r as [key | e key value | e key]; simpl in *.
    - exists []. by rewrite app_nil_r.
    - by apply Set_wal_log_grows.
    - apply Delete_wal_log_grows. }
  exists (more' ++ more). by rewrite Hmore, Hmore', app_assoc.
Qed.

Lemma boot_flushes recover_open_ok log tables w :
  boot recover_open_ok log tables = Some w → flushes (trace w) = 0%nat.
Proof.
  unfold boot, NewKeyValueStore, RecoverFromWAL. simpl. intros [= <-].
  destruct recover_open_ok; [|done].
  match goal with |- context [replay ?l ?w0] =>
    by destruct (replay_frame l w0) as (_ & _ & _ & _ & ->) end.
Qed.
End restarts.

(** X5.  An entry of the log that does not decode ends the recovery: [main]
    serves the mapping recovered from the records before it.  The entry
    stays in the log, so that until a flush truncates the log every restart
    comes back to that same mapping, whatever was set or deleted in between. *)
Theorem writes_after_undecodable_entry_are_lost before after tables rs w0 w' :
  Forall (λ entry, is_record entry = true) before →
  boot true (before ++ WalGarbage :: after) tables = Some w0 →
  flushes (trace (run rs w0)) = 0%nat →
  restart (run rs w0) = Some w' →
  data (kv w0) = foldl raw_apply ∅ before ∧
  data (kv w') = data (kv w0).
Proof.
  intros Hrec Hboot Hfl Hboot'.
  pose proof (boot_flushes _ _ _ _ Hboot) as Hfl0.
  apply boot_data in Hboot as (Hd & _ & _ & Hl & _).
  apply boot_data in Hboot' as (Hd' & _).
  destruct (run_wal_log_grows rs w0) as [more Hmore]; [lia|].
  rewrite decoded_stops in Hd by done. split; [done|].
  rewrite Hd', Hmore, Hl, Hd.
  rewrite <- app_assoc, <- app_comm_cons. by rewrite decoded_stops.
Qed.

Lemma writes_after_undecodable_entry_are_lost_witness :
  ∃ w0 w',
    Forall (λ entry, is_record entry = true) [WalRecord "set" "a" "1"] ∧
    boot true damaged_log [] = Some w0 ∧
    flushes (trace (run some_requests w0)) = 0%nat ∧
    restart (run some_requests w0) = Some w' ∧
    data (kv w0) = foldl raw_apply ∅ [WalRecord "set" "a" "1"] ∧
    data (kv w') = data (kv w0).
Proof.
  assert (Forall (λ entry, is_record entry = true) [WalRecord "set" "a" "1"])
    as H1 by (repeat constructor).
  eexists _, _. split; [exact H1|]. split; [reflexivity|].
  assert (flushes (trace (run some_requests
            (RecoverFromWAL true
               (mkWorld (mkKeyValueStore ∅ Open 0 0 ∅) damaged_log [] [])).2))
          = 0%nat) as H2 by (vm_compute; reflexivity).
  split; [exact H2|]. split; [reflexivity|].
  exact (writes_after_undecodable_entry_are_lost
           [WalRecord "set" "a" "1"] [WalRecord "set" "b" "2"] []
           some_requests _ _ H1 eq_refl H2 eq_refl).
Defined.

(** X6.  The deletion of a key that only the tables hold does not survive a
    restart: recovery replays the "delete" record on the live mapping, where
    the key is not, and starts with no marks, so that [Get] finds the key in
    the tables again. *)
Theorem delete_of_flushed_key_is_undone_by_restart e key value w w' :
  log_mirrors_data w →
  wal_write_ok e = true →
  data (kv w) !! key = None →
  deleted (kv w) key = false →
  SearchSSTFiles key w = (value, true) →
  let w1 := (Delete e key w).2 in
  restart w1 = Some w' →
  Get key w1 = ("", false) ∧ Get key w' = (value, true).
Proof.
  intros Hinv Hwrite Hkey Hdel Hfound w1 Hboot.
  assert (Get key w = (value, true)) as HGet.
  { unfold Get. by rewrite Hdel, Hkey. }
  destruct Hinv as (Hrec & Hopen & Hlog).
  assert (wal_log w1 =
            wal_log w ++ [json_entry (WalRecord "delete" key value)] ∧
          deleted (kv w1) key = true) as [Hlog1 Hdel1].
  { unfold w1, Delete, deleted. rewrite Hkey, HGet. cbn [snd]. assignments.
    by rewrite writeToWAL_wal_log, writeToWAL_kv, Hopen, Hwrite,
      lookup_insert_eq. }
  split; [unfold Get; by rewrite Hdel1|].
  apply boot_data in Hboot as (Hd & Hm & _ & _ & Hs).
  rewrite Hlog1, decoded_all_records in Hd.
  2: { apply Forall_app. split; [done|]. by apply Forall_singleton. }
  rewrite foldl_raw_apply_snoc, Hlog, raw_apply_delete in Hd.
  unfold Get, deleted, SearchSSTFiles.
  rewrite Hm, lookup_empty, Hd, Hs. unfold w1.
  rewrite Delete_sstables. fold (SearchSSTFiles key w).
  assert (delete (json_string key) (data (kv w)) !! key = None) as ->; [|done].
  apply lookup_delete_None. by right.
Qed.

Lemma delete_of_flushed_key_is_undone_by_restart_witness :
  ∃ w',
    log_mirrors_data after_first_flush ∧
    wal_write_ok (calm 1) = true ∧
    data (kv after_first_flush) !! "k0" = None ∧
    deleted (kv after_first_flush) "k0" = false ∧
    SearchSSTFiles "k0" after_first_flush = ("vk0", true) ∧
    restart (Delete (calm 1) "k0" after_first_flush).2 = Some w' ∧
    Get "k0" (Delete (calm 1) "k0" after_first_flush).2 = ("", false) ∧
    Get "k0" w' = ("vk0", true).
Proof.
  assert (log_mirrors_data after_first_flush) as H1.
  { split; [vm_compute; constructor|].
    split; vm_compute; reflexivity. }
  assert (data (kv after_first_flush) !! "k0" = None) as H2
    by (vm_compute; reflexivity).
  assert (deleted (kv after_first_flush) "k0" = false) as H3
    by (vm_compute; reflexivity).
  assert (SearchSSTFiles "k0" after_first_flush = ("vk0", true)) as H4
    by (vm_compute; reflexivity).
  eexists. split; [exact H1|]. split; [reflexivity|]. split; [exact H2|].
  split; [exact H3|]. split; [exact H4|]. split; [reflexivity|].
  exact (delete_of_flushed_key_is_undone_by_restart (calm 1) "k0" "vk0"
           after_first_flush _ H1 eq_refl H2 H3 H4 eq_refl).
Defined.

(* ===================================================================== *)
(** * The HTTP handlers *)
(* ===================================================================== *)

(** X7.  [handleSet] answers 400 and leaves the store, the log and the
    tables untouched when the body does not decode or lacks "key" or
    "value"; in every other case it calls [Set] and answers 200 "OK", also
    when [Set] stored nothing because the key is marked as deleted. *)
Theorem handleSet_validates_body e decoded_body w :
  let resp := (handleSet e decoded_body w).1 in
  let w' := (handleSet e decoded_body w).2 in
  (status resp = 400 ∧ w' = w ∧
   (decoded_body = None ∨
    ∃ requestBody, decoded_body = Some requestBody ∧
      (requestBody !! "key" = None ∨ requestBody !! "value" = None))) ∨
  (∃ requestBody key value,
     decoded_body = Some requestBody ∧
     requestBody !! "key" = Some key ∧ requestBody !! "value" = Some value ∧
     resp = reply ("OK" +:+ newline) ∧ w' = Set_ e key value w).
Proof.
  cbv zeta. unfold handleSet.
  destruct decoded_body as [requestBody|]; [|left; by auto].
  destruct (requestBody !! "key") as [key|] eqn:Hkey; [|left; by eauto 10].
  destruct (requestBody !! "value") as [value|] eqn:Hvalue;
    [|left; by eauto 10].
  right. by exists requestBody, key, value.
Qed.

(** X8.  A value that [handleSet] stored is what [handleGet] answers for the
    key as long as the key was not marked as deleted and the memtable stays
    below the threshold. *)
Theorem handleSet_then_handleGet e requestBody query key value more w :
  requestBody !! "key" = Some key →
  requestBody !! "value" = Some value →
  query !! "key" = Some (key :: more) →
  deleted (kv w) key = false →
  (size (<[key := value]> (data (kv w))) < 10)%nat →
  let '(resp, w') := handleSet e (Some requestBody) w in
  resp = reply ("OK" +:+ newline) ∧
  handleGet query w' = reply ("Value: " +:+ value +:+ newline).
Proof.
  intros Hkey Hvalue Hquery Hdel Hsz. unfold handleSet, handleGet, query_get.
  rewrite Hkey, Hvalue, Hquery. split; [done|].
  rewrite Set_below by done. unfold Get, deleted.
  rewrite Set_store_DeletedKeys, Set_store_data, lookup_insert_eq.
  fold (deleted (kv w) key). by rewrite Hdel.
Qed.

Lemma handleSet_then_handleGet_witness :
  body_a !! "key" = Some "a" ∧
  body_a !! "value" = Some "1" ∧
  query_a !! "key" = Some ["a"] ∧
  deleted (kv fresh) "a" = false ∧
  (size (<["a" := "1"]> (data (kv fresh))) < 10)%nat ∧
  let '(resp, w') := handleSet (calm 1) (Some body_a) fresh in
  resp = reply ("OK" +:+ newline) ∧
  handleGet query_a w' = reply ("Value: " +:+ "1" +:+ newline).
Proof.
  assert (body_a !! "key" = Some "a") as H1 by (vm_compute; reflexivity).
  assert (body_a !! "value" = Some "1") as H2 by (vm_compute; reflexivity).
  assert (query_a !! "key" = Some ["a"]) as H3 by (vm_compute; reflexivity).
  assert (size (<["a" := "1"]> (data (kv fresh))) < 10)%nat as H4
    by (vm_compute; lia).
  split; [exact H1|]. split; [exact H2|]. split; [exact H3|].
  split; [reflexivity|]. split; [exact H4|].
  exact (handleSet_then_handleGet (calm 1) body_a query_a "a" "1" [] fresh
           H1 H2 H3 eq_refl H4).
Defined.

(** X9.  A key that only the tables hold is deleted and then set again: all
    three handlers answer 200, [handleSet] with "OK", but the new value is
    stored nowhere and not logged, and [handleGet] answers with the old
    value of the tables. *)
Theorem handleSet_after_handleDelete_keeps_old_value
    e1 e2 requestBody query key old value more w :
  requestBody !! "key" = Some key →
  requestBody !! "value" = Some value →
  query !! "key" = Some (key :: more) →
  data (kv w) !! key = None →
  deleted (kv w) key = false →
  SearchSSTFiles key w = (old, true) →
  let '(resp1, w1) := handleDelete e1 query w in
  let '(resp2, w2) := handleSet e2 (Some requestBody) w1 in
  resp1 = reply ("Deleted key: " +:+ key +:+ ", Value: " +:+ old +:+ newline) ∧
  resp2 = reply ("OK" +:+ newline) ∧
  handleGet query w2 = reply ("Value: " +:+ old +:+ newline) ∧
  data (kv w2) = data (kv w) ∧ wal_log w2 = wal_log w1.
Proof.
  intros Hkey Hvalue Hquery Hdata Hdel Hfound.
  assert (Get key w = (old, true)) as HGet.
  { unfold Get. by rewrite Hdel, Hdata. }
  unfold handleDelete, handleSet, handleGet, query_get.
  rewrite Hquery, Hkey, Hvalue. unfold Delete. rewrite Hdata, HGet.
  split; [done|]. split; [done|].
  set (w1 := store_deleted key true
               (writeToWAL e1 (WalRecord "delete" key old) w)).
  assert (deleted (kv w1) key = true) as Hdel1.
  { unfold w1, deleted. assignments. by rewrite lookup_insert_eq. }
  unfold Set_. rewrite Hdel1. unfold Get, deleted, SearchSSTFiles, w1.
  assignments.
  rewrite writeToWAL_kv, writeToWAL_sstables, lookup_insert_eq, Hdata.
  cbn [default]. fold (SearchSSTFiles key w). by rewrite Hfound.
Qed.

Lemma handleSet_after_handleDelete_keeps_old_value_witness :
  body_k0 !! "key" = Some "k0" ∧
  body_k0 !! "value" = Some "new" ∧
  query_k0 !! "key" = Some ["k0"] ∧
  data (kv after_first_flush) !! "k0" = None ∧
  deleted (kv after_first_flush) "k0" = false ∧
  SearchSSTFiles "k0" after_first_flush = ("vk0", true) ∧
  let '(resp1, w1) := handleDelete (calm 1) query_k0 after_first_flush in
  let '(resp2, w2) := handleSet (calm 1) (Some body_k0) w1 in
  resp1 =
    reply ("Deleted key: " +:+ "k0" +:+ ", Value: " +:+ "vk0" +:+ newline) ∧
  resp2 = reply ("OK" +:+ newline) ∧
  handleGet query_k0 w2 = reply ("Value: " +:+ "vk0" +:+ newline) ∧
  data (kv w2) = data (kv after_first_flush) ∧ wal_log w2 = wal_log w1.
Proof.
  assert (body_k0 !! "key" = Some "k0") as H1 by (vm_compute; reflexivity).
  assert (body_k0 !! "value" = Some "new") as H2 by (vm_compute; reflexivity).
  assert (query_k0 !! "key" = Some ["k0"]) as H3 by (vm_compute; reflexivity).
  assert (data (kv after_first_flush) !! "k0" = None) as H4
    by (vm_compute; reflexivity).
  assert (deleted (kv after_first_flush) "k0" = false) as H5
    by (vm_compute; reflexivity).
  assert (SearchSSTFiles "k0" after_first_flush = ("vk0", true)) as H6
    by (vm_compute; reflexivity).
  split; [exact H1|]. split; [exact H2|]. split; [exact H3|].
  split; [exact H4|]. split; [exact H5|]. split; [exact H6|].
  exact (handleSet_after_handleDelete_keeps_old_value (calm 1) (calm 1)
           body_k0 query_k0 "k0" "vk0" "new" [] after_first_flush
           H1 H2 H3 H4 H5 H6).
Defined.

(* ===================================================================== *)
(** * The key lengths *)
(* ===================================================================== *)

Section key_lengths.
Implicit Types (w : World) (e : env) (r : request) (key value : string).

Lemma update_key_lengths_largest key w :
  largestKeyLength (kv (update_key_lengths key w)) =
    Z.max (largestKeyLength (kv w)) (len key).
Proof.
  unfold update_key_lengths. cbv zeta.
  destruct (_ || _); simpl;
    destruct (largestKeyLength (kv w) <? len key) eqn:E; simpl;
    first [apply Z.ltb_lt in E | apply Z.ltb_ge in E]; lia.
Qed.

Lemma update_key_lengths_smallest key w :
  smallestKeyLength (kv (update_key_lengths key w)) =
    if bool_decide (smallestKeyLength (kv w) = 0) then len key
    else Z.min (smallestKeyLength (kv w)) (len key).
Proof.
  unfold update_key_lengths. cbv zeta.
  assert (∀ w0 : World,
    smallestKeyLength (kv (if largestKeyLength (kv w0) <? len key
                           then with_kv (set_largestKeyLength (len key)) w0
                           else w0)) = smallestKeyLength (kv w0)) as ->
    by (intros w0; by destruct (_ <? _)).
  case_bool_decide as Hz.
  - rewrite Hz. simpl. done.
  - destruct (smallestKeyLength (kv w) =? 0) eqn:E0;
      [apply Z.eqb_eq in E0; done|]. simpl.
    destruct (len key <? smallestKeyLength (kv w)) eqn:E; simpl;
      first [apply Z.ltb_lt in E | apply Z.ltb_ge in E]; lia.
Qed.

Lemma Set_store_lengths e key value w :
  largestKeyLength (kv (Set_store e key value w)) =
    largestKeyLength (kv (update_key_lengths key w)) ∧
  smallestKeyLength (kv (Set_store e key value w)) =
    smallestKeyLength (kv (update_key_lengths key w)).
Proof. unfold Set_store. assignments. by rewrite writeToWAL_kv. Qed.

Lemma ClearWAL_lengths e w :
  largestKeyLength (kv (ClearWAL e w).2) = largestKeyLength (kv w) ∧
  smallestKeyLength (kv (ClearWAL e w).2) = smallestKeyLength (kv w).
Proof. unfold ClearWAL. by repeat case_match. Qed.

(** A flush leaves the key lengths as they are. *)
Lemma Set_flush_lengths e w :
  largestKeyLength (kv (Set_flush e w)) = largestKeyLength (kv w) ∧
  smallestKeyLength (kv (Set_flush e w)) = smallestKeyLength (kv w).
Proof.
  rewrite Set_flush_unfold. case_bool_decide; [|done]. cbv zeta.
  destruct (WriteSSTable e (sstable_name e) w).1.
  - by rewrite WriteSSTable_kv.
  - destruct (ClearWAL_lengths e
      (reset_deleted (reset_data (WriteSSTable e (sstable_name e) w).2)))
      as [-> ->].
    assignments. by rewrite WriteSSTable_kv.
Qed.

Lemma Set_flush_data e w :
  data (kv (Set_flush e w)) = data (kv w) ∨ data (kv (Set_flush e w)) = ∅.
Proof.
  rewrite Set_flush_unfold. case_bool_decide; [|by left]. cbv zeta.
  destruct (WriteSSTable e (sstable_name e) w).1.
  - left. by rewrite WriteSSTable_kv.
  - right.
    by destruct (ClearWAL_frame e
      (reset_deleted (reset_data (WriteSSTable e (sstable_name e) w).2)))
      as (-> & _).
Qed.

Lemma Delete_kv e key w :
  let w' := (Delete e key w).2 in
  largestKeyLength (kv w') = largestKeyLength (kv w) ∧
  smallestKeyLength (kv w') = smallestKeyLength (kv w) ∧
  (∀ key', is_Some (data (kv w') !! key') → is_Some (data (kv w) !! key')).
Proof.
  cbv zeta. unfold Delete.
  destruct (data (kv w) !! key) as [value|] eqn:Hkey; cbn [snd].
  - assignments. rewrite writeToWAL_kv. split_and!; [done..|].
    intros key' [v Hv]. apply lookup_delete_Some in Hv as [_ Hv]. eauto.
  - destruct (Get key w) as [value []]; cbn [snd]; [|done].
    assignments. by rewrite writeToWAL_kv.
Qed.

Lemma Set_largest_bounds_keys e key value w :
  largest_bounds_keys w → largest_bounds_keys (Set_ e key value w).
Proof.
  intros Hinv. unfold Set_. destruct (deleted (kv w) key); [done|].
  intros key'. destruct (Set_flush_lengths e (Set_store e key value w)) as [-> _].
  destruct (Set_store_lengths e key value w) as [-> _].
  rewrite update_key_lengths_largest.
  destruct (Set_flush_data e (Set_store e key value w)) as [-> | ->].
  - rewrite Set_store_data. intros [v Hv].
    apply lookup_insert_Some in Hv as [[<- _] | [_ Hv]]; [lia|].
    specialize (Hinv key' (mk_is_Some _ _ Hv)). lia.
  - rewrite lookup_empty. by intros [? ?].
Qed.

Lemma Set_smallest_bounds_keys e key value w :
  key ≠ "" →
  smallest_bounds_keys w → smallest_bounds_keys (Set_ e key value w).
Proof.
  intros Hkey [Hpos Hinv]. unfold Set_. destruct (deleted (kv w) key); [done|].
  assert (0 < len key) as Hlen by (destruct key; [done|unfold len; simpl; lia]).
  unfold smallest_bounds_keys.
  destruct (Set_flush_lengths e (Set_store e key value w)) as [_ ->].
  destruct (Set_store_lengths e key value w) as [_ ->].
  rewrite update_key_lengths_smallest.
  split; [case_bool_decide; lia|]. intros key'.
  destruct (Set_flush_data e (Set_store e key value w)) as [-> | ->].
  - rewrite Set_store_data. intros [v Hv].
    apply lookup_insert_Some in Hv as [[<- _] | [_ Hv]].
    + case_bool_decide; lia.
    + specialize (Hinv key' (mk_is_Some _ _ Hv)). case_bool_decide; lia.
  - rewrite lookup_empty. by intros [? ?].
Qed.

Lemma serve_largest_bounds_keys w r :
  largest_bounds_keys w → largest_bounds_keys (serve w r).
Proof.
  destruct r as [key | e key value | e key]; simpl; [done|..].
  - apply Set_largest_bounds_keys.
  - intros Hinv key' Hk. destruct (Delete_kv e key w) as (-> & _ & Hsub).
    by apply Hinv, Hsub.
Qed.

Lemma serve_smallest_bounds_keys w r :
  sets_no_empty_key r →
  smallest_bounds_keys w → smallest_bounds_keys (serve w r).
Proof.
  destruct r as [key | e key value | e key]; simpl; [done|..].
  - apply Set_smallest_bounds_keys.
  - intros _ [Hpos Hinv]. unfold smallest_bounds_keys.
    destruct (Delete_kv e key w) as (_ & -> & Hsub).
    split; [done|]. intros key' Hk. by apply Hinv, Hsub.
Qed.

Lemma run_largest_bounds_keys rs w :
  largest_bounds_keys w → largest_bounds_keys (run rs w).
Proof.
  revert w. induction rs as [|r rs IH]; intros w Hinv; simpl; [done|].
  by apply IH, serve_largest_bounds_keys.
Qed.

Lemma run_smallest_bounds_keys rs w :
  Forall sets_no_empty_key rs →
  smallest_bounds_keys w → smallest_bounds_keys (run rs w).
Proof.
  revert w. induction rs as [|r rs IH]; intros w Hrs Hinv; simpl; [done|].
  apply Forall_cons in Hrs as [Hr Hrs].
  by apply IH, serve_smallest_bounds_keys.
Qed.
End key_lengths.

(** X10.  On a store started on an empty log, the largest key length bounds
    the length of every live key from above, at any time: the hint a flush
    writes to the header of its table is no smaller than the live keys of
    that table.  The smallest key length is a positive lower bound as long
    as the empty key is never set. *)
Theorem key_lengths_bound_live_keys recover_open_ok tables rs w0 :
  boot recover_open_ok [] tables = Some w0 →
  largest_bounds_keys (run rs w0) ∧
  (Forall sets_no_empty_key rs → smallest_bounds_keys (run rs w0)).
Proof.
  intros Hboot.
  assert (data (kv w0) = ∅) as Hempty.
  { unfold boot, NewKeyValueStore, RecoverFromWAL in Hboot. simpl in Hboot.
    by destruct recover_open_ok; injection Hboot as <-. }
  split; [|intros Hrs].
  - apply run_largest_bounds_keys. intros key. rewrite Hempty, lookup_empty.
    by intros [? ?].
  - apply run_smallest_bounds_keys; [done|]. split.
    + unfold boot, NewKeyValueStore, RecoverFromWAL in Hboot. simpl in Hboot.
      by destruct recover_open_ok; injection Hboot as <-.
    + intros key. rewrite Hempty, lookup_empty. by intros [? ?].
Qed.

Lemma key_lengths_bound_live_keys_witness :
  boot true [] [] = Some fresh ∧
  largest_bounds_keys (run some_requests fresh) ∧
  (Forall sets_no_empty_key some_requests →
   smallest_bounds_keys (run some_requests fresh)).
Proof.
  split; [reflexivity|].
  exact (key_lengths_bound_live_keys true [] some_requests fresh eq_refl).
Defined.

(* ===================================================================== *)
(** * Key lengths across requests *)
(* ===================================================================== *)

Section key_length_history.
Implicit Types (w : World) (e : env) (r : request) (key value : string).

Lemma replay_lengths entries w :
  largestKeyLength (kv (replay entries w).2) = largestKeyLength (kv w) ∧
  smallestKeyLength (kv (replay entries w).2) = smallestKeyLength (kv w).
Proof.
  revert w. induction entries as [|[operation key value|] entries IH];
    intros w; simpl; [done| |done].
  repeat case_match.
  - by destruct (IH (store_data key value w)) as [-> ->].
  - by destruct (IH (delete_data key w)) as [-> ->].
  - apply IH.
Qed.
End key_length_history.

(** X11.  The empty key: zero stands for "no key yet". A [Set] of the empty
    key brings the smallest key length to 0, and the next [Set] then takes
    the length of its own key as the smallest, whatever shorter keys were
    set before it. *)
Theorem empty_key_resets_smallest_key_length e1 e2 value1 key value w :
  0 ≤ smallestKeyLength (kv w) →
  deleted (kv w) "" = false →
  let w1 := Set_ e1 "" value1 w in
  deleted (kv w1) key = false →
  smallestKeyLength (kv w1) = 0 ∧
  smallestKeyLength (kv (Set_ e2 key value w1)) = len key.
Proof.
  intros Hpos Hdel w1 Hdel1.
  assert (smallestKeyLength (kv w1) = 0) as Hzero.
  { unfold w1, Set_. rewrite Hdel.
    destruct (Set_flush_lengths e1 (Set_store e1 "" value1 w)) as [_ ->].
    destruct (Set_store_lengths e1 "" value1 w) as [_ ->].
    rewrite update_key_lengths_smallest. case_bool_decide; [done|].
    unfold len. simpl. lia. }
  split; [done|]. unfold Set_. rewrite Hdel1.
  destruct (Set_flush_lengths e2 (Set_store e2 key value w1)) as [_ ->].
  destruct (Set_store_lengths e2 key value w1) as [_ ->].
  rewrite update_key_lengths_smallest.
  by rewrite bool_decide_eq_true_2.
Qed.

Lemma empty_key_resets_smallest_key_length_witness :
  let w := Set_ (calm 1) "abc" "1" fresh in
  0 ≤ smallestKeyLength (kv w) ∧
  deleted (kv w) "" = false ∧
  let w1 := Set_ (calm 1) "" "2" w in
  deleted (kv w1) "abcd" = false ∧
  smallestKeyLength (kv w1) = 0 ∧
  smallestKeyLength (kv (Set_ (calm 1) "abcd" "3" w1)) = len "abcd".
Proof.
  cbv zeta.
  assert (0 ≤ smallestKeyLength (kv (Set_ (calm 1) "abc" "1" fresh))) as H1
    by (vm_compute; discriminate).
  split; [exact H1|]. split; [reflexivity|]. split; [reflexivity|].
  exact (empty_key_resets_smallest_key_length (calm 1) (calm 1) "2" "abcd" "3"
           (Set_ (calm 1) "abc" "1" fresh) H1 eq_refl eq_refl).
Defined.

(** X12.  The two key lengths are changed by nothing but a [Set] of a key
    that is not marked as deleted.  Recovery leaves them at 0 whatever it
    brings back, and a flush does not reset them: the header of a table can
    carry the length of a key of an earlier table. *)
Theorem key_lengths_change_only_in_Set recover_open_ok log tables w0 w r :
  boot recover_open_ok log tables = Some w0 →
  largestKeyLength (kv w0) = 0 ∧ smallestKeyLength (kv w0) = 0 ∧
  largestKeyLength (kv (serve w r)) =
    match r with
    | ReqSet _ key _ =>
        if deleted (kv w) key then largestKeyLength (kv w)
        else Z.max (largestKeyLength (kv w)) (len key)
    | _ => largestKeyLength (kv w)
    end.
Proof.
  intros Hboot.
  assert (largestKeyLength (kv w0) = 0 ∧ smallestKeyLength (kv w0) = 0)
    as [-> ->].
  { unfold boot, NewKeyValueStore, RecoverFromWAL in Hboot. simpl in Hboot.
    injection Hboot as <-. destruct recover_open_ok; [|done].
    match goal with |- context [replay ?l ?w1] =>
      by destruct (replay_lengths l w1) as [-> ->] end. }
  split; [done|]. split; [done|].
  destruct r as [key | e key value | e key]; simpl; [done|..].
  - unfold Set_. destruct (deleted (kv w) key); [done|].
    destruct (Set_flush_lengths e (Set_store e key value w)) as [-> _].
    destruct (Set_store_lengths e key value w) as [-> _].
    apply update_key_lengths_largest.
  - by destruct (Delete_kv e key w) as (-> & _).
Qed.

Lemma key_lengths_change_only_in_Set_witness :
  boot true long_log [] = Some (RecoverFromWAL true
                                  (mkWorld (mkKeyValueStore ∅ Open 0 0 ∅)
                                     long_log [] [])).2 ∧
  let w0 := (RecoverFromWAL true
               (mkWorld (mkKeyValueStore ∅ Open 0 0 ∅) long_log [] [])).2 in
  largestKeyLength (kv w0) = 0 ∧ smallestKeyLength (kv w0) = 0 ∧
  largestKeyLength (kv (serve after_first_flush (ReqSet (calm 2) "a" "1"))) =
    if deleted (kv after_first_flush) "a"
    then largestKeyLength (kv after_first_flush)
    else Z.max (largestKeyLength (kv after_first_flush)) (len "a").
Proof.
  split; [reflexivity|].
  exact (key_lengths_change_only_in_Set true long_log [] _ after_first_flush
           (ReqSet (calm 2) "a" "1") eq_refl).
Defined.

(* ===================================================================== *)
(** * Reading what a flush wrote *)
(* ===================================================================== *)

(** X13.  The layout of a table: a header of 16 bytes, then for every key of
    the live mapping or of the marks, in ascending order of the keys, an
    entry of 10 bytes followed by the key and the value.  The header counts
    one entry for each key of each of the two maps. *)
Theorem table_layout s :
  Sorted String.le (sst_keys s) ∧
  (∀ key, key ∈ sst_keys s ↔
          is_Some (data s !! key) ∨ is_Some (DeletedKeys s !! key)) ∧
  entry_key <$> sst_entries s = sst_keys s ∧
  length (sst_entries s) = (size (data s) + size (DeletedKeys s))%nat ∧
  String.length (str_concat (sst_chunks s)) =
    (16 + sum_list ((λ en, 10 + String.length (entry_key en)
                             + String.length (entry_value en))%nat
                    <$> sst_entries s))%nat.
Proof.
  split_and!.
  - apply sst_keys_sorted.
  - apply elem_of_sst_keys.
  - apply sst_entries_keys.
  - unfold sst_entries. by rewrite length_fmap, sst_keys_length.
  - unfold sst_chunks, header_chunks. rewrite str_concat_app.
    rewrite str_app_length, entries_size. cbn [str_concat].
    rewrite !str_app_length, !le_bytes_length. simpl. lia.
Qed.

(** X14.  A successful flush loses no live value when the new table is the
    newest file: if no length wraps around in the table and the modification
    time that the file system gives the new table is later than that of
    every table that exists, every value that was live when the flush
    started is what [Get] returns after it, now read from the new table.
    The hypothesis is on the time stamp of the file ([mtime]), not on the
    clock reading in its name: with equal time stamps an older table can be
    searched first ([equal_time_stamps_let_older_table_answer]). *)
Theorem flush_keeps_live_values_readable e key' value' w key value :
  live_or_marked w →
  deleted (kv w) key' = false →
  let at_flush := Set_store e key' value' w in
  (10 ≤ size (data (kv at_flush)))%nat →
  sst_fault e = None →
  table_fits (kv at_flush) →
  (∀ g, g ∈ sstables w → modtime g < mtime e) →
  data (kv at_flush) !! key = Some value →
  data (kv (Set_ e key' value' w)) = ∅ ∧
  Get key (Set_ e key' value' w) = (value, true).
Proof.
  intros Hinv Hdel' at_flush Hsz Hfault Hfits Hnew Hkey. split.
  - unfold Set_. rewrite Hdel'. fold at_flush.
    rewrite Set_flush_unfold, bool_decide_eq_true_2 by done. cbv zeta.
    rewrite (WriteSSTable_no_fault e (sstable_name e) at_flush Hfault).
    by destruct (ClearWAL_frame e
      (reset_deleted (reset_data (WriteSSTable e (sstable_name e) at_flush).2)))
      as (-> & _).
  - rewrite (Get_after_flush e key' value' w key); try done.
    + fold at_flush.
      assert (deleted (kv at_flush) key = false) as ->.
      { unfold at_flush, deleted. rewrite Set_store_DeletedKeys.
        unfold at_flush in Hkey. rewrite Set_store_data in Hkey.
        apply lookup_insert_Some in Hkey as [[<- _] | [_ Hkey]]; [done|].
        by apply Hinv. }
      unfold value_of. by rewrite Hkey.
    + left. by eexists.
Qed.

Lemma flush_keeps_live_values_readable_witness :
  live_or_marked nine_over_table ∧
  deleted (kv nine_over_table) "a8" = false ∧
  let at_flush := Set_store clock_ahead "a8" "va8" nine_over_table in
  (10 ≤ size (data (kv at_flush)))%nat ∧
  sst_fault clock_ahead = None ∧
  table_fits (kv at_flush) ∧
  (∀ g, g ∈ sstables nine_over_table → modtime g < mtime clock_ahead) ∧
  data (kv at_flush) !! "k0" = Some "new" ∧
  data (kv (Set_ clock_ahead "a8" "va8" nine_over_table)) = ∅ ∧
  Get "k0" (Set_ clock_ahead "a8" "va8" nine_over_table) = ("new", true).
Proof.
  cbv zeta.
  assert (live_or_marked nine_over_table) as H1
    by (apply no_marks_live_or_marked; vm_compute; reflexivity).
  assert (deleted (kv nine_over_table) "a8" = false) as H2
    by (vm_compute; reflexivity).
  assert (10 ≤ size (data (kv (Set_store clock_ahead "a8" "va8"
                                 nine_over_table))))%nat
    as H3 by (vm_compute; lia).
  assert (table_fits (kv (Set_store clock_ahead "a8" "va8" nine_over_table)))
    as H4 by check_table_fits.
  assert (∀ g, g ∈ sstables nine_over_table → modtime g < mtime clock_ahead)
    as H5 by (apply tables_older_check; by_evaluation).
  assert (data (kv (Set_store clock_ahead "a8" "va8" nine_over_table)) !! "k0"
          = Some "new") as H6 by (vm_compute; reflexivity).
  split; [exact H1|]. split; [exact H2|]. split; [exact H3|].
  split; [reflexivity|]. split; [exact H4|]. split; [exact H5|].
  split; [exact H6|].
  exact (flush_keeps_live_values_readable clock_ahead "a8" "va8"
           nine_over_table "k0" "new" H1 H2 H3 eq_refl H4 H5 H6).
Defined.

(** The hypothesis on the time stamps is needed.  The tenth [Set] flushes
    the live value "new" of [k0] to a second table that the file system
    stamps like the first; the first table is then searched first and
    answers with the value "vk0" it holds. *)
Lemma equal_time_stamps_let_older_table_answer :
  let at_flush := Set_store coarse_stamp "a8" "va8" nine_over_table in
  let w' := Set_ coarse_stamp "a8" "va8" nine_over_table in
  data (kv at_flush) !! "k0" = Some "new" ∧
  (10 ≤ size (data (kv at_flush)))%nat ∧
  fname <$> sstables w' = ["sstable_1.sst"; "sstable_2.sst"] ∧
  modtime <$> sstables w' = [1; 1] ∧
  data (kv w') = ∅ ∧
  Get "k0" w' = ("vk0", true).
Proof.
  cbv zeta. split; [vm_compute; reflexivity|].
  split; [vm_compute; lia|].
  split; [vm_compute; reflexivity|].
  split; [vm_compute; reflexivity|].
  split; vm_compute; reflexivity.
Qed.

(* ===================================================================== *)
(** * A closed log handle *)
(* ===================================================================== *)

Section closed_handle.
Implicit Types (w : World) (e : env) (r : request) (key value : string).

Lemma writeToWAL_closed e entry w :
  wal (kv w) = Closed → wal_log (writeToWAL e entry w) = wal_log w.
Proof. intros H. by rewrite writeToWAL_wal_log, H. Qed.

Lemma ClearWAL_closed e w : wal (kv w) = Closed → (ClearWAL e w).2 = w.
Proof. intros H. unfold ClearWAL. by rewrite H. Qed.

Lemma Set_flush_closed e w :
  wal (kv w) = Closed →
  wal (kv (Set_flush e w)) = Closed ∧ wal_log (Set_flush e w) = wal_log w.
Proof.
  intros Hclosed. rewrite Set_flush_unfold. case_bool_decide; [|done].
  cbv zeta. destruct (WriteSSTable e (sstable_name e) w).1.
  - by rewrite WriteSSTable_kv, WriteSSTable_wal_log.
  - rewrite ClearWAL_closed;
      unfold reset_deleted, reset_data; assignments;
      by rewrite ?WriteSSTable_kv, ?WriteSSTable_wal_log.
Qed.

Lemma serve_closed w r :
  wal (kv w) = Closed →
  wal (kv (serve w r)) = Closed ∧ wal_log (serve w r) = wal_log w.
Proof.
  intros Hclosed. destruct r as [key | e key value | e key]; simpl; [done|..].
  - unfold Set_. destruct (deleted (kv w) key); [done|].
    destruct (Set_flush_closed e (Set_store e key value w)) as [-> ->].
    { by rewrite Set_store_wal. }
    by rewrite Set_store_wal_log, Hclosed.
  - unfold Delete. destruct (data (kv w) !! key); cbn [snd].
    + assignments. by rewrite writeToWAL_kv, writeToWAL_closed.
    + destruct (Get key w) as [value []]; cbn [snd]; [|done].
      assignments. by rewrite writeToWAL_kv, writeToWAL_closed.
Qed.
End closed_handle.

(** X15.  Once the log handle is closed it is never opened again and the log
    never changes: whatever requests follow [CloseWAL], none of them appends
    a record or truncates the log, although they go on changing the maps and
    writing tables. *)
Theorem closed_log_is_never_written rs w :
  let w' := run rs (CloseWAL w) in
  wal (kv w') = Closed ∧ wal_log w' = wal_log w.
Proof.
  cbv zeta. assert (wal (kv (CloseWAL w)) = Closed) as Hclosed by done.
  change (wal_log w) with (wal_log (CloseWAL w)).
  revert Hclosed. generalize (CloseWAL w) as w0. clear w.
  induction rs as [|r rs IH]; intros w Hclosed; simpl; [done|].
  destruct (serve_closed w r Hclosed) as [Hc Hl].
  destruct (IH _ Hc) as [-> ->]. by rewrite Hl.
Qed.

(** X16.  A [Set] after [CloseWAL] still stores its value in the live
    mapping, but the log stays as it was: the value is in no record. *)
Theorem Set_after_CloseWAL_is_unlogged e key value w :
  deleted (kv w) key = false →
  (size (<[key := value]> (data (kv w))) < 10)%nat →
  let w' := Set_ e key value (CloseWAL w) in
  data (kv w') !! key = Some value ∧ wal_log w' = wal_log w.
Proof.
  intros Hdel Hsz. cbv zeta. rewrite Set_below; [|done..].
  by rewrite Set_store_data, Set_store_wal_log, lookup_insert_eq.
Qed.

Lemma Set_after_CloseWAL_is_unlogged_witness :
  deleted (kv fresh) "a" = false ∧
  (size (<["a" := "1"]> (data (kv fresh))) < 10)%nat ∧
  let w' := Set_ (calm 1) "a" "1" (CloseWAL fresh) in
  data (kv w') !! "a" = Some "1" ∧ wal_log w' = wal_log fresh.
Proof.
  assert (size (<["a" := "1"]> (data (kv fresh))) < 10)%nat as H
    by (vm_compute; lia).
  split; [reflexivity|]. split; [exact H|].
  exact (Set_after_CloseWAL_is_unlogged (calm 1) "a" "1" fresh eq_refl H).
Defined.

(* ===================================================================== *)
(** * A flush whose log cannot be cleared *)
(* ===================================================================== *)

(** X17.  When the table is written but [ClearWAL] fails, the memtable is
    cleared all the same and the handle stays closed.  If the failure comes
    before the truncation, the log keeps the records of the entries that are
    now in the table. *)
Theorem flush_with_failing_ClearWAL e w step :
  (10 ≤ size (data (kv w)))%nat →
  sst_fault e = None →
  wal (kv w) = Open →
  clear_fault e = Some step →
  let w' := Set_flush e w in
  data (kv w') = ∅ ∧
  DeletedKeys (kv w') = ∅ ∧
  wal (kv w') = Closed ∧
  mkSst (sstable_name e) (mtime e) (str_concat (sst_chunks (kv w)))
    ∈ sstables w' ∧
  wal_log w' = match step with ReopenStep => [] | _ => wal_log w end.
Proof.
  intros Hsz Hfault Hopen Hclear. cbv zeta.
  split_and!; [| | |by apply Set_flush_table|].
  all: rewrite Set_flush_unfold, bool_decide_eq_true_2 by done; cbv zeta.
  all: rewrite (WriteSSTable_no_fault e (sstable_name e) w Hfault).
  all: unfold ClearWAL, reset_deleted, reset_data; assignments.
  all: rewrite WriteSSTable_kv, Hopen, Hclear.
  all: destruct step;
    cbn [kv data wal DeletedKeys wal_log emit with_kv with_wal_log
         set_data set_DeletedKeys set_wal snd];
    by rewrite ?WriteSSTable_wal_log.
Qed.

Lemma flush_with_failing_ClearWAL_witness :
  let w := Set_store truncate_fails "k9" "vk9" nine_keys in
  (10 ≤ size (data (kv w)))%nat ∧
  sst_fault truncate_fails = None ∧
  wal (kv w) = Open ∧
  clear_fault truncate_fails = Some TruncateStep ∧
  let w' := Set_flush truncate_fails w in
  data (kv w') = ∅ ∧
  DeletedKeys (kv w') = ∅ ∧
  wal (kv w') = Closed ∧
  mkSst (sstable_name truncate_fails) (mtime truncate_fails)
      (str_concat (sst_chunks (kv w)))
    ∈ sstables w' ∧
  wal_log w' = wal_log w.
Proof.
  cbv zeta.
  assert (10 ≤ size (data (kv (Set_store truncate_fails "k9" "vk9"
                                 nine_keys))))%nat
    as H1 by (vm_compute; lia).
  assert (wal (kv (Set_store truncate_fails "k9" "vk9" nine_keys)) = Open)
    as H2 by (vm_compute; reflexivity).
  split; [exact H1|]. split; [reflexivity|]. split; [exact H2|].
  split; [reflexivity|].
  exact (flush_with_failing_ClearWAL truncate_fails
           (Set_store truncate_fails "k9" "vk9" nine_keys) TruncateStep
           H1 eq_refl H2 eq_refl).
Defined.

(* ===================================================================== *)
(** * Deleting *)
(* ===================================================================== *)

Section deleting.
Implicit Types (w : World) (e : env) (r : request) (key value : string).

(** Whenever [Get] reports that the key was not found, the value is nil. *)
Lemma Get_miss key w : (Get key w).2 = false → Get key w = not_found.
Proof.
  unfold Get, SearchSSTFiles. destruct (deleted (kv w) key); [done|].
  destruct (data (kv w) !! key); [done|].
  generalize (by_modtime (sstables w)) as files.
  induction files as [|f files IH]; simpl; [done|].
  destruct (SearchSSTFile key (contents f)) as [value []]; [done|]. apply IH.
Qed.
End deleting.

(** X18.  [Delete] of a key with a live value returns the value and removes
    it from the live mapping, but does not mark the key.  The tables are not
    touched, so that [Get] now answers from them: a value that an older
    table holds for the key is returned again. *)
Theorem Delete_of_live_key_unshadows_tables e key value w :
  data (kv w) !! key = Some value →
  deleted (kv w) key = false →
  let w' := (Delete e key w).2 in
  (Delete e key w).1 = (value, true) ∧
  data (kv w') = delete key (data (kv w)) ∧
  DeletedKeys (kv w') = DeletedKeys (kv w) ∧
  sstables w' = sstables w ∧
  Get key w' = SearchSSTFiles key w.
Proof.
  intros Hkey Hdel. cbv zeta. unfold Delete. rewrite Hkey. cbn [fst snd].
  unfold Get, deleted, SearchSSTFiles. assignments.
  rewrite writeToWAL_kv, writeToWAL_sstables, lookup_delete_eq.
  fold (deleted (kv w) key). by rewrite Hdel.
Qed.

Lemma Delete_of_live_key_unshadows_tables_witness :
  data (kv live_over_table) !! "k0" = Some "new" ∧
  deleted (kv live_over_table) "k0" = false ∧
  let w' := (Delete (calm 1) "k0" live_over_table).2 in
  (Delete (calm 1) "k0" live_over_table).1 = ("new", true) ∧
  data (kv w') = delete "k0" (data (kv live_over_table)) ∧
  DeletedKeys (kv w') = DeletedKeys (kv live_over_table) ∧
  sstables w' = sstables live_over_table ∧
  Get "k0" w' = SearchSSTFiles "k0" live_over_table.
Proof.
  assert (data (kv live_over_table) !! "k0" = Some "new") as H1
    by (vm_compute; reflexivity).
  split; [exact H1|]. split; [reflexivity|].
  exact (Delete_of_live_key_unshadows_tables (calm 1) "k0" "new"
           live_over_table H1 eq_refl).
Defined.

(** X19.  [Delete] of a key that only the tables hold marks it as deleted;
    from then on [Get] does not find the key and a second [Delete] reports
    "not found" and changes nothing. *)
Theorem Delete_of_key_in_table_marks_it e e' key value w :
  data (kv w) !! key = None →
  deleted (kv w) key = false →
  SearchSSTFiles key w = (value, true) →
  let w' := (Delete e key w).2 in
  (Delete e key w).1 = (value, true) ∧
  DeletedKeys (kv w') = <[key := true]> (DeletedKeys (kv w)) ∧
  data (kv w') = data (kv w) ∧
  sstables w' = sstables w ∧
  Get key w' = ("", false) ∧
  Delete e' key w' = (("", false), w').
Proof.
  intros Hkey Hdel Hfound. cbv zeta.
  assert (Get key w = (value, true)) as HGet.
  { unfold Get. by rewrite Hdel, Hkey. }
  assert (let w' := (Delete e key w).2 in
          deleted (kv w') key = true ∧ data (kv w') !! key = None) as [Hd' Hk'].
  { cbv zeta. unfold Delete. rewrite Hkey, HGet. cbn [snd].
    unfold deleted. assignments.
    by rewrite writeToWAL_kv, lookup_insert_eq. }
  assert (Get key (Delete e key w).2 = ("", false)) as HGet'.
  { unfold Get. by rewrite Hd'. }
  split_and!; [..|done|].
  1-4: unfold Delete; rewrite Hkey, HGet; cbn [fst snd]; assignments;
       by rewrite ?writeToWAL_kv, ?writeToWAL_sstables.
  unfold Delete at 1. by rewrite Hk', HGet'.
Qed.

Lemma Delete_of_key_in_table_marks_it_witness :
  data (kv after_first_flush) !! "k0" = None ∧
  deleted (kv after_first_flush) "k0" = false ∧
  SearchSSTFiles "k0" after_first_flush = ("vk0", true) ∧
  let w' := (Delete (calm 1) "k0" after_first_flush).2 in
  (Delete (calm 1) "k0" after_first_flush).1 = ("vk0", true) ∧
  DeletedKeys (kv w') = <["k0" := true]> (DeletedKeys (kv after_first_flush)) ∧
  data (kv w') = data (kv after_first_flush) ∧
  sstables w' = sstables after_first_flush ∧
  Get "k0" w' = ("", false) ∧
  Delete (calm 2) "k0" w' = (("", false), w').
Proof.
  assert (data (kv after_first_flush) !! "k0" = None) as H1
    by (vm_compute; reflexivity).
  assert (deleted (kv after_first_flush) "k0" = false) as H2
    by (vm_compute; reflexivity).
  assert (SearchSSTFiles "k0" after_first_flush = ("vk0", true)) as H3
    by (vm_compute; reflexivity).
  split; [exact H1|]. split; [exact H2|]. split; [exact H3|].
  exact (Delete_of_key_in_table_marks_it (calm 1) (calm 2) "k0" "vk0"
           after_first_flush H1 H2 H3).
Defined.

(* ===================================================================== *)
(** * Live values and marks *)
(* ===================================================================== *)

Section live_or_marked.
Implicit Types (w : World) (e : env) (r : request) (key value : string).

Lemma Set_live_or_marked e key value w :
  live_or_marked w → live_or_marked (Set_ e key value w).
Proof.
  intros Hinv. unfold Set_. destruct (deleted (kv w) key) eqn:Hdel.
  - intros key' Hk. unfold deleted. assignments.
    destruct (decide (key = key')) as [->|Hne].
    + by rewrite lookup_insert_eq.
    + rewrite lookup_insert_ne by done. by apply Hinv.
  - intros key'. unfold deleted.
    destruct (Set_flush_data e (Set_store e key value w)) as [-> | ->];
      [|rewrite lookup_empty; by intros [? ?]].
    destruct (Set_flush_DeletedKeys e (Set_store e key value w)) as [-> | ->];
      [|by rewrite lookup_empty].
    rewrite Set_store_data, Set_store_DeletedKeys. intros [v Hv].
    apply lookup_insert_Some in Hv as [[<- _] | [_ Hv]]; [done|].
    by apply Hinv.
Qed.

Lemma Delete_live_or_marked e key w :
  live_or_marked w → live_or_marked (Delete e key w).2.
Proof.
  intros Hinv. unfold Delete.
  destruct (data (kv w) !! key) as [value|] eqn:Hkey; cbn [snd].
  - intros key'. unfold deleted. assignments. rewrite writeToWAL_kv.
    intros [v Hv]. apply lookup_delete_Some in Hv as [_ Hv].
    by apply Hinv.
  - destruct (Get key w) as [value []]; cbn [snd]; [|done].
    intros key'. unfold deleted. assignments. rewrite writeToWAL_kv.
    intros Hk. destruct (decide (key = key')) as [->|Hne].
    + rewrite Hkey in Hk. by destruct Hk.
    + rewrite lookup_insert_ne by done. by apply Hinv.
Qed.

Lemma run_live_or_marked rs w : live_or_marked w → live_or_marked (run rs w).
Proof.
  revert w. induction rs as [|r rs IH]; intros w Hinv; simpl; [done|].
  apply IH. destruct r; simpl;
    auto using Set_live_or_marked, Delete_live_or_marked.
Qed.
End live_or_marked.

(** X20.  However the store is started and whatever requests it serves, no
    key ever has a live value while it is marked as deleted; the value that
    [Get] returns for a live key is therefore the one in the live mapping. *)
Theorem live_keys_are_never_marked recover_open_ok log tables rs w0 :
  boot recover_open_ok log tables = Some w0 →
  live_or_marked (run rs w0) ∧
  ∀ key value, data (kv (run rs w0)) !! key = Some value →
               Get key (run rs w0) = (value, true).
Proof.
  intros Hboot.
  assert (live_or_marked (run rs w0)) as Hinv.
  { apply run_live_or_marked. intros key _. unfold deleted.
    unfold boot, NewKeyValueStore, RecoverFromWAL in Hboot. simpl in Hboot.
    injection Hboot as <-. destruct recover_open_ok; [|done]. simpl.
    match goal with |- context [replay ?l ?w] =>
      destruct (replay_frame l w) as (-> & _) end. done. }
  split; [done|]. intros key value Hkey. unfold Get.
  by rewrite (Hinv key (mk_is_Some _ _ Hkey)), Hkey.
Qed.

Lemma live_keys_are_never_marked_witness :
  boot true [] [] = Some fresh ∧
  live_or_marked (run some_requests fresh) ∧
  ∀ key value, data (kv (run some_requests fresh)) !! key = Some value →
               Get key (run some_requests fresh) = (value, true).
Proof.
  split; [reflexivity|].
  exact (live_keys_are_never_marked true [] [] some_requests fresh eq_refl).
Defined.

(* ===================================================================== *)
(** * The size of the memtable *)
(* ===================================================================== *)

Section memtable_size.
Implicit Types (w : World) (e : env) (r : request) (key value : string).

Lemma Set_flush_empties e w :
  (10 ≤ size (data (kv w)))%nat → sst_fault e = None →
  data (kv (Set_flush e w)) = ∅.
Proof.
  intros Hsz Hfault.
  rewrite Set_flush_unfold, bool_decide_eq_true_2 by done. cbv zeta.
  rewrite (WriteSSTable_no_fault e (sstable_name e) w Hfault).
  by destruct (ClearWAL_frame e
    (reset_deleted (reset_data (WriteSSTable e (sstable_name e) w).2)))
    as (-> & _).
Qed.

Lemma size_insert_le (d : gmap string string) key value :
  (size (<[key := value]> d) ≤ S (size d))%nat.
Proof. rewrite map_size_insert. destruct (d !! key); simpl; lia. Qed.

Lemma size_delete_le (d : gmap string string) key :
  (size (delete key d) ≤ size d)%nat.
Proof. rewrite map_size_delete. destruct (d !! key); simpl; lia. Qed.

Lemma serve_below_threshold w r :
  table_io_ok r →
  (size (data (kv w)) < 10)%nat → (size (data (kv (serve w r))) < 10)%nat.
Proof.
  intros Hio Hsz. destruct r as [key | e key value | e key]; simpl in *;
    [done|..].
  - unfold Set_. destruct (deleted (kv w) key); [done|].
    pose proof (size_insert_le (data (kv w)) key value) as Hle.
    destruct (decide (size (<[key := value]> (data (kv w))) < 10)%nat)
      as [Hlt|Hge].
    + rewrite Set_flush_below by (by rewrite Set_store_data).
      by rewrite Set_store_data.
    + rewrite Set_flush_empties; [by rewrite map_size_empty; lia| |done].
      rewrite Set_store_data. lia.
  - unfold Delete. destruct (data (kv w) !! key) as [value|]; cbn [snd].
    + assignments. rewrite writeToWAL_kv.
      pose proof (size_delete_le (data (kv w)) key). lia.
    + destruct (Get key w) as [value []]; cbn [snd]; [|done].
      assignments. by rewrite writeToWAL_kv.
Qed.
End memtable_size.

(** X21.  When every table write succeeds, a memtable that starts with fewer
    than ten entries has fewer than ten entries after every request: the
    tenth entry is flushed by the [Set] that stores it.  (Recovery is what
    can leave ten entries or more.) *)
Theorem memtable_stays_below_threshold rs w :
  Forall table_io_ok rs →
  (size (data (kv w)) < 10)%nat →
  (size (data (kv (run rs w))) < 10)%nat.
Proof.
  revert w. induction rs as [|r rs IH]; intros w Hrs Hsz; [done|].
  change (run (r :: rs) w) with (run rs (serve w r)).
  apply Forall_cons in Hrs as [Hr Hrs].
  by apply IH, serve_below_threshold.
Qed.

Lemma memtable_stays_below_threshold_witness :
  Forall table_io_ok (put_all 1 (ten_keys "k") ++ some_requests) ∧
  (size (data (kv fresh)) < 10)%nat ∧
  (size (data (kv (run (put_all 1 (ten_keys "k") ++ some_requests) fresh)))
   < 10)%nat.
Proof.
  assert (Forall table_io_ok (put_all 1 (ten_keys "k") ++ some_requests))
    as H1 by (repeat constructor).
  assert (size (data (kv fresh)) < 10)%nat as H2 by (vm_compute; lia).
  split; [exact H1|]. split; [exact H2|].
  exact (memtable_stays_below_threshold
           (put_all 1 (ten_keys "k") ++ some_requests) fresh H1 H2).
Defined.

(* ===================================================================== *)
(** * The order of the maps *)
(* ===================================================================== *)

(** X22.  Go visits the keys of a map in an unspecified order.  Whatever the
    order in which the two loops of [WriteSSTable] collect the keys of the
    live mapping and of the marks, the sort makes the entries of the table,
    and so its bytes, the same. *)
Theorem table_is_independent_of_map_order s (l1 l2 : list string) :
  l1 ≡ₚ (map_to_list (data s)).*1 →
  l2 ≡ₚ (map_to_list (DeletedKeys s)).*1 →
  entry_of s <$> merge_sort String.le (l1 ++ l2) = sst_entries s.
Proof.
  intros H1 H2. unfold sst_entries. f_equal.
  by apply sst_keys_order_independent.
Qed.

Lemma table_is_independent_of_map_order_witness :
  ["b"; "a"] ≡ₚ (map_to_list (data three_key_store)).*1 ∧
  ["c"] ≡ₚ (map_to_list (DeletedKeys three_key_store)).*1 ∧
  entry_of three_key_store <$> merge_sort String.le (["b"; "a"] ++ ["c"])
    = sst_entries three_key_store.
Proof.
  assert (["b"; "a"] ≡ₚ (map_to_list (data three_key_store)).*1) as H1.
  { apply NoDup_Permutation.
    - by_evaluation.
    - apply NoDup_fst_map_to_list.
    - intros key. rewrite !elem_of_cons, elem_of_nil, list_elem_of_fmap.
      split.
      + intros [-> | [-> | []]]; eexists (_, _);
          (split; [reflexivity | by apply elem_of_map_to_list]).
      + intros ([k v] & -> & Hin). apply elem_of_map_to_list in Hin.
        unfold three_key_store in Hin. cbn [data] in Hin.
        apply lookup_insert_Some in Hin as [[<- _] | [_ Hin]]; [by left|].
        apply lookup_insert_Some in Hin as [[<- _] | [_ Hin]];
          [by right; left|].
        by rewrite lookup_empty in Hin. }
  assert (["c"] ≡ₚ (map_to_list (DeletedKeys three_key_store)).*1) as H2.
  { unfold three_key_store. cbn [DeletedKeys].
    by rewrite insert_empty, map_to_list_singleton. }
  split; [exact H1|]. split; [exact H2|].
  exact (table_is_independent_of_map_order three_key_store
           ["b"; "a"] ["c"] H1 H2).
Defined.

(* ===================================================================== *)
(** * Damaged and partial tables *)
(* ===================================================================== *)

Section damaged_tables.
Implicit Types (s : KeyValueStore) (en : sst_entry) (key tail : string).





Lemma str_take_magic contents :
  str_take 4 contents +:+ zeros (4 - String.length (str_take 4 contents))
    = "SSTB" →
  str_take 4 contents = "SSTB".
Proof.
  destruct contents as [|a [|b [|c [|d rest]]]]; simpl; intros H;
    by simplify_eq.
Qed.
End damaged_tables.

(** X23.  A file that does not start with the four bytes "SSTB", among them
    every file shorter than four bytes, holds no key: the search reports
    "not found" for it and goes on to the next file. *)
Theorem table_without_magic_is_skipped key f files :
  str_take 4 (contents f) ≠ "SSTB" →
  SearchSSTFile key (contents f) = not_found ∧
  search_files key (f :: files) = search_files key files.
Proof.
  intros Hmagic.
  assert (SearchSSTFile key (contents f) = not_found) as Hskip.
  { unfold SearchSSTFile, file_read.
    destruct (contents f) as [|c rest] eqn:Hcontents; [done|].
    cbv zeta. case_bool_decide as Heq; [|done].
    by apply str_take_magic in Heq. }
  split; [done|]. cbn [search_files]. by rewrite Hskip.
Qed.

Lemma table_without_magic_is_skipped_witness :
  let f := mkSst "sstable_9.sst" 9 "SST" in
  str_take 4 (contents f) ≠ "SSTB" ∧
  SearchSSTFile "k0" (contents f) = not_found ∧
  search_files "k0" [f; one_key_table] = search_files "k0" [one_key_table].
Proof.
  cbv zeta.
  assert (str_take 4 (contents (mkSst "sstable_9.sst" 9 "SST")) ≠ "SSTB") as H
    by (vm_compute; discriminate).
  split; [exact H|].
  exact (table_without_magic_is_skipped "k0" (mkSst "sstable_9.sst" 9 "SST")
           [one_key_table] H).
Defined.

Section torn_tables.
Implicit Types (s : KeyValueStore) (en : sst_entry) (key tail : string).












End torn_tables.



(** The exception is real: the write of the value "old" fails after its
    first byte, and the table left behind answers for the key with that
    byte and two zero bytes. *)
Lemma torn_value_is_read_zero_padded :
  let flushed := WriteSSTable torn_value "sstable_1.sst" one_key_world in
  flushed.1 = true ∧
  SearchSSTFile "k0" (str_concat (sst_chunks (kv one_key_world)))
    = ("old", true) ∧
  ∃ f, sstables flushed.2 = [f] ∧
       String.length (contents f) = 29%nat ∧
       SearchSSTFile "k0" (contents f)
         = (String "o" (String zero (String zero "")), true).
Proof.
  cbv zeta. split; [vm_compute; reflexivity|].
  split; [vm_compute; reflexivity|].
  eexists. split; [vm_compute; reflexivity|].
  split; vm_compute; reflexivity.
Qed.

(* ===================================================================== *)
(** * What the tables hold *)
(* ===================================================================== *)

Section found_in_tables.
Implicit Types (w : World) (key value : string) (files : list sst_file).

Lemma search_files_found key files :
  (search_files key files).2 = true ↔
  ∃ f, f ∈ files ∧ (SearchSSTFile key (contents f)).2 = true.
Proof.
  induction files as [|f files IH]; simpl.
  - split; [done|]. by intros (f & ?%elem_of_nil & _).
  - destruct (SearchSSTFile key (contents f)) as [value ok] eqn:Hf.
    destruct ok; simpl.
    + split; [|done]. intros _. exists f. rewrite Hf.
      split; [apply list_elem_of_here|done].
    + rewrite IH. split.
      * intros (g & Hg & Hfound). exists g. split; [by right|done].
      * intros (g & Hg & Hfound). apply elem_of_cons in Hg as [->|Hg].
        -- by rewrite Hf in Hfound.
        -- by exists g.
Qed.

Lemma search_files_result key files value :
  search_files key files = (value, true) →
  ∃ f, f ∈ files ∧ SearchSSTFile key (contents f) = (value, true).
Proof.
  induction files as [|f files IH]; simpl; [done|].
  destruct (SearchSSTFile key (contents f)) as [value' ok] eqn:Hf.
  destruct ok.
  - intros [= <-]. exists f. split; [apply list_elem_of_here|done].
  - intros (g & Hg & Hfound)%IH. exists g. split; [by right|done].
Qed.
End found_in_tables.

(** X25.  The search of the tables finds a key if and only if some table has
    an entry for it, and what it returns is the answer of one of those
    tables; the order of the files decides which one, never whether. *)
Theorem SearchSSTFiles_finds_key_of_any_table key w :
  ((SearchSSTFiles key w).2 = true ↔
   ∃ f, f ∈ sstables w ∧ (SearchSSTFile key (contents f)).2 = true) ∧
  ∀ value, SearchSSTFiles key w = (value, true) →
    ∃ f, f ∈ sstables w ∧ SearchSSTFile key (contents f) = (value, true).
Proof.
  unfold SearchSSTFiles, by_modtime. split.
  - rewrite search_files_found.
    by setoid_rewrite (merge_sort_Permutation newer_or_same (sstables w)).
  - intros value (f & Hf & Hfound)%search_files_result.
    rewrite merge_sort_Permutation in Hf. by exists f.
Qed.

(** X26.  [Delete] that reports "not found" has changed nothing and written
    no record, whatever the reason the key was not found: it is marked as
    deleted, or it has no live value and no table has it. *)
Theorem Delete_not_found_changes_nothing e key w :
  (Delete e key w).1.2 = false → Delete e key w = (("", false), w).
Proof.
  unfold Delete. destruct (data (kv w) !! key) as [value|]; [done|].
  pose proof (Get_miss key w) as Hmiss.
  destruct (Get key w) as [value []]; [done|]. intros _.
  by rewrite Hmiss.
Qed.

Lemma Delete_not_found_changes_nothing_witness :
  (Delete (calm 1) "a" fresh).1.2 = false ∧
  Delete (calm 1) "a" fresh = (("", false), fresh).
Proof.
  split; [reflexivity|].
  exact (Delete_not_found_changes_nothing (calm 1) "a" fresh eq_refl).
Defined.

(* ===================================================================== *)
(** * The table files *)
(* ===================================================================== *)

Section table_files.
Implicit Types (w : World) (e : env) (r : request) (f g : sst_file).
Implicit Types (files : list sst_file).

Lemma str_app_inv_tail (s1 s2 t : string) : s1 +:+ t = s2 +:+ t → s1 = s2.
Proof.
  revert s2. induction s1 as [|c s1 IH]; intros [|c' s2] Heq.
  - done.
  - apply (f_equal String.length) in Heq.
    rewrite !str_app_length in Heq. simpl in Heq. lia.
  - apply (f_equal String.length) in Heq.
    rewrite !str_app_length in Heq. simpl in Heq. lia.
  - rewrite !str_app_cons in Heq. injection Heq as -> Heq.
    by rewrite (IH _ Heq).
Qed.

Lemma create_file_names f files :
  fname <$> create_file f files =
    if bool_decide (fname f ∈ fname <$> files)
    then fname <$> files else (fname <$> files) ++ [fname f].
Proof.
  unfold create_file.
  destruct (existsb _ files) eqn:E.
  - rewrite bool_decide_eq_true_2.
    + rewrite <- list_fmap_compose. apply list_fmap_ext.
      intros i g _. simpl. by case_bool_decide.
    + apply existsb_exists in E as (g & Hg & Heq).
      apply bool_decide_eq_true in Heq. apply list_elem_of_In in Hg.
      apply list_elem_of_fmap. by exists g.
  - rewrite bool_decide_eq_false_2; [by rewrite fmap_app|].
    intros (g & Heq & Hg)%list_elem_of_fmap.
    apply not_true_iff_false in E. apply E, existsb_exists.
    exists g. split; [by apply list_elem_of_In|].
    by apply bool_decide_eq_true.
Qed.

Lemma create_file_other f g files :
  g ∈ files → fname g ≠ fname f → g ∈ create_file f files.
Proof.
  intros Hg Hne. unfold create_file. destruct (existsb _ files).
  - apply list_elem_of_fmap. exists g.
    by rewrite bool_decide_eq_false_2.
  - apply elem_of_app. by left.
Qed.

Lemma create_file_same_name f g files :
  g ∈ create_file f files → fname g = fname f → g = f.
Proof.
  unfold create_file. destruct (existsb _ files) eqn:E.
  - intros (h & -> & Hh)%list_elem_of_fmap. by case_bool_decide.
  - intros [Hg | ->%list_elem_of_singleton]%elem_of_app Heq; [|done].
    apply not_true_iff_false in E. destruct E. apply existsb_exists.
    exists g. split; [by apply list_elem_of_In|].
    by apply bool_decide_eq_true.
Qed.

Lemma WriteSSTable_names e filename w :
  fname <$> sstables (WriteSSTable e filename w).2 = fname <$> sstables w ∨
  fname <$> sstables (WriteSSTable e filename w).2
    = (fname <$> sstables w) ++ [filename].
Proof.
  unfold WriteSSTable. destruct (sst_fault e) as [[|n]|]; cbn [snd];
    [by left|..]; assignments; cbn [with_sstables sstables].
  all: rewrite create_file_names; cbn [fname].
  all: case_bool_decide; [by left|by right].
Qed.

Lemma WriteSSTable_other e filename w g :
  g ∈ sstables w → fname g ≠ filename →
  g ∈ sstables (WriteSSTable e filename w).2.
Proof.
  intros Hg Hne. unfold WriteSSTable.
  destruct (sst_fault e) as [[|n]|]; cbn [snd]; [done|..];
    assignments; cbn [with_sstables sstables].
  all: by apply create_file_other.
Qed.

Lemma Set_flush_sstables e w :
  sstables (Set_flush e w) = sstables w ∨
  sstables (Set_flush e w) = sstables (WriteSSTable e (sstable_name e) w).2.
Proof.
  rewrite Set_flush_unfold. case_bool_decide; [|by left]. right. cbv zeta.
  destruct (WriteSSTable e (sstable_name e) w).1; [done|].
  by destruct (ClearWAL_frame e
    (reset_deleted (reset_data (WriteSSTable e (sstable_name e) w).2)))
    as (_ & _ & -> & _).
Qed.

Lemma serve_names w r :
  ∃ added, fname <$> sstables (serve w r) = (fname <$> sstables w) ++ added.
Proof.
  destruct r as [key | e key value | e key]; simpl.
  - exists []. by rewrite app_nil_r.
  - unfold Set_. destruct (deleted (kv w) key).
    { exists []. by rewrite app_nil_r. }
    destruct (Set_flush_sstables e (Set_store e key value w)) as [-> | ->].
    { rewrite Set_store_sstables. exists []. by rewrite app_nil_r. }
    destruct (WriteSSTable_names e (sstable_name e) (Set_store e key value w))
      as [-> | ->]; rewrite Set_store_sstables; [|by eexists].
    exists []. by rewrite app_nil_r.
  - rewrite Delete_sstables. exists []. by rewrite app_nil_r.
Qed.

Lemma serve_other w r g :
  g ∈ sstables w →
  (∀ e, request_env r = Some e → sstable_name e ≠ fname g) →
  g ∈ sstables (serve w r).
Proof.
  intros Hg Hname. destruct r as [key | e key value | e key]; simpl; [done|..].
  - unfold Set_. destruct (deleted (kv w) key); [done|].
    destruct (Set_flush_sstables e (Set_store e key value w)) as [-> | ->].
    { by rewrite Set_store_sstables. }
    apply WriteSSTable_other; [by rewrite Set_store_sstables|].
    intros Heq. by apply (Hname e).
  - by rewrite Delete_sstables.
Qed.
End table_files.

(** X27.  The name of a table is the clock reading of its flush in decimal:
    two flushes write to the same file exactly when their clock readings are
    equal. *)
Theorem sstable_name_of_clock e1 e2 :
  sstable_name e1 = sstable_name e2 ↔ now e1 = now e2.
Proof.
  unfold sstable_name. split; [|by intros ->].
  intros Heq. apply (inj (String.app "sstable_")) in Heq.
  apply str_app_inv_tail in Heq. by apply (inj pretty) in Heq.
Qed.

(** X28.  No request removes a table file or renames one: the names that
    exist stay, in their order, and new names are added behind them.  A file
    is left as it is by every request whose flush, if any, goes to another
    name. *)
Theorem tables_are_never_removed rs w :
  (∃ added,
     fname <$> sstables (run rs w) = (fname <$> sstables w) ++ added) ∧
  ∀ g, g ∈ sstables w →
    Forall (λ r, ∀ e, request_env r = Some e → sstable_name e ≠ fname g) rs →
    g ∈ sstables (run rs w).
Proof.
  split.
  - revert w. induction rs as [|r rs IH]; intros w.
    { exists []. by rewrite app_nil_r. }
    change (run (r :: rs) w) with (run rs (serve w r)).
    destruct (IH (serve w r)) as [added ->].
    destruct (serve_names w r) as [added' ->].
    exists (added' ++ added). by rewrite app_assoc.
  - revert w. induction rs as [|r rs IH]; intros w g Hg Hrs; [done|].
    change (run (r :: rs) w) with (run rs (serve w r)).
    apply Forall_cons in Hrs as [Hr Hrs].
    apply IH; [|done]. by apply serve_other.
Qed.

(** X29.  A flush at a clock reading for which a table exists overwrites
    that table: the number of files stays and the only file of that name is
    the new table, so that the entries of the old one are gone. *)
Theorem flush_at_clock_of_existing_table_overwrites_it e w f :
  (10 ≤ size (data (kv w)))%nat →
  sst_fault e = None →
  f ∈ sstables w →
  fname f = sstable_name e →
  let table :=
    mkSst (sstable_name e) (mtime e) (str_concat (sst_chunks (kv w))) in
  length (sstables (Set_flush e w)) = length (sstables w) ∧
  table ∈ sstables (Set_flush e w) ∧
  ∀ g, g ∈ sstables (Set_flush e w) → fname g = sstable_name e → g = table.
Proof.
  intros Hsz Hfault Hf Hname table.
  assert (sstables (Set_flush e w) = create_file table (sstables w)) as ->.
  { rewrite Set_flush_unfold, bool_decide_eq_true_2 by done. cbv zeta.
    pose proof (WriteSSTable_no_fault e (sstable_name e) w Hfault) as Hok.
    rewrite Hok.
    destruct (ClearWAL_frame e
      (reset_deleted (reset_data (WriteSSTable e (sstable_name e) w).2)))
      as (_ & _ & -> & _).
    unfold reset_deleted, reset_data. assignments.
    by apply WriteSSTable_ok. }
  split_and!.
  - rewrite <- (length_fmap fname), create_file_names.
    rewrite bool_decide_eq_true_2; [by rewrite length_fmap|].
    apply list_elem_of_fmap. exists f. by rewrite Hname.
  - apply elem_of_create_file.
  - intros g Hg Hg'. by apply (create_file_same_name table g (sstables w)).
Qed.

Lemma flush_at_clock_of_existing_table_overwrites_it_witness :
  let w := Set_store (calm 1) "a9" "va9"
             (run (put_all 1 (take 9 (ten_keys "a"))) after_first_flush) in
  let f := default one_key_table (head (sstables w)) in
  (10 ≤ size (data (kv w)))%nat ∧
  sst_fault (calm 1) = None ∧
  f ∈ sstables w ∧
  fname f = sstable_name (calm 1) ∧
  let table :=
    mkSst (sstable_name (calm 1)) (mtime (calm 1))
      (str_concat (sst_chunks (kv w))) in
  length (sstables (Set_flush (calm 1) w)) = length (sstables w) ∧
  table ∈ sstables (Set_flush (calm 1) w) ∧
  ∀ g, g ∈ sstables (Set_flush (calm 1) w) →
       fname g = sstable_name (calm 1) → g = table.
Proof.
  set (w := Set_store (calm 1) "a9" "va9"
              (run (put_all 1 (take 9 (ten_keys "a"))) after_first_flush)).
  set (f := default one_key_table (head (sstables w))).
  cbv zeta.
  assert (10 ≤ size (data (kv w)))%nat as H1 by (vm_compute; lia).
  assert (sstables w = [f]) as Hfiles by (vm_compute; reflexivity).
  assert (f ∈ sstables w) as H2
    by (rewrite Hfiles; apply list_elem_of_here).
  assert (fname f = sstable_name (calm 1)) as H3 by (vm_compute; reflexivity).
  split; [exact H1|]. split; [reflexivity|]. split; [exact H2|].
  split; [exact H3|].
  exact (flush_at_clock_of_existing_table_overwrites_it (calm 1) w f
           H1 eq_refl H2 H3).
Defined.

(* ===================================================================== *)
(** * Instances of earlier lemmas *)
(* ===================================================================== *)

Lemma Set_then_Get_up_to_first_flush_witness :
  boot true [] [] = Some fresh ∧
  let w := run (put_all 1 (take 9 (ten_keys "k"))) fresh in
  sstables w = [] ∧
  table_fits (kv (Set_store (calm 1) "k9" "vk9" w)) ∧
  Get "k9" (Set_ (calm 1) "k9" "vk9" w) = ("vk9", true).
Proof.
  cbv zeta.
  assert (sstables (run (put_all 1 (take 9 (ten_keys "k"))) fresh) = [])
    as H1 by (vm_compute; reflexivity).
  assert (table_fits
            (kv (Set_store (calm 1) "k9" "vk9"
                   (run (put_all 1 (take 9 (ten_keys "k"))) fresh))))
    as H2 by check_table_fits.
  split; [reflexivity|]. split; [exact H1|]. split; [exact H2|].
  exact (Set_then_Get_up_to_first_flush true []
           (put_all 1 (take 9 (ten_keys "k"))) fresh (calm 1) "k9" "vk9"
           eq_refl H1 H2).
Defined.

Lemma Get_stops_at_newest_match_witness :
  let files := by_modtime (sstables after_second_flush) in
  let newest := default one_key_table (files !! 0%nat) in
  let oldest := default one_key_table (files !! 1%nat) in
  data (kv after_second_flush) !! "k1" = None ∧
  deleted (kv after_second_flush) "k1" = false ∧
  by_modtime (sstables after_second_flush) = [newest] ++ oldest :: [] ∧
  (∀ g, g ∈ [newest] → (SearchSSTFile "k1" (contents g)).2 = false) ∧
  SearchSSTFile "k1" (contents oldest) = ("vk1", true) ∧
  Get "k1" after_second_flush = ("vk1", true).
Proof.
  set (newest := default one_key_table
                   (by_modtime (sstables after_second_flush) !! 0%nat)).
  set (oldest := default one_key_table
                   (by_modtime (sstables after_second_flush) !! 1%nat)).
  cbv zeta.
  assert (data (kv after_second_flush) !! "k1" = None) as H1
    by (vm_compute; reflexivity).
  assert (deleted (kv after_second_flush) "k1" = false) as H2
    by (vm_compute; reflexivity).
  assert (by_modtime (sstables after_second_flush) = [newest] ++ oldest :: [])
    as H3 by (vm_compute; reflexivity).
  assert (∀ g, g ∈ [newest] → (SearchSSTFile "k1" (contents g)).2 = false)
    as H4.
  { intros g Hg. apply list_elem_of_singleton in Hg. subst g.
    vm_compute. reflexivity. }
  assert (SearchSSTFile "k1" (contents oldest) = ("vk1", true)) as H5
    by (vm_compute; reflexivity).
  split; [exact H1|]. split; [exact H2|]. split; [exact H3|].
  split; [exact H4|]. split; [exact H5|].
  exact (Get_stops_at_newest_match "k1" after_second_flush [newest] oldest []
           "vk1" H1 H2 H3 H4 H5).
Defined.
